(** * EMVCo / Thai-QR payment-slip verification

    A shallow embedding of [src/utils/emvco.js] ([parseEMV], [verifyCRC],
    [crc16ccitt]) and of the slip check of the [POST /checkout] handler in
    [src/server.js], together with the properties the specification states
    about them, followed by further properties of the same code and of the
    helpers [parseSlugsParam] and [slugify] of [src/server.js].

    Modelling conventions.
    - A QR payload, and every text taken from one, is a Rocq [string]; its
      characters stand for ASCII code units, the alphabet of a QR payload.
      The texts of the helpers [parseSlugsParam] and [slugify] may hold any
      character and are lists of UTF-16 code units.
    - A JavaScript number used as a cursor or a length is a [JS.num]: an
      integer or [NaN].  The only negative zero the code can produce is the
      result of [parseInt] on a text such as "-0"; it is only ever added to a
      cursor, where it behaves as [0], so it is not distinguished from [0].
    - A JavaScript number used as an amount is a binary64 [float].
    - The object built by [parseEMV] is a finite map from tags to nodes.
    - [parseEMV] contains a [while] loop whose cursor can move backwards, so
      it is modelled with fuel: [None] means that the fuel was exhausted. *)

From Stdlib Require Import ZArith String Ascii List Lia Bool.
From Stdlib Require Import Strings.HexString.
From Stdlib Require Import Floats.PrimFloat Floats.SpecFloat Floats.FloatOps.
From stdpp Require Import gmap strings.

Local Open Scope string_scope.
Local Open Scope Z_scope.

(** ** JavaScript primitives used by the code *)

Module JS.

(** Numbers that index strings: integers and [NaN]. *)
Inductive num : Type :=
  | NaN
  | Int (z : Z).

Definition add (a b : num) : num :=
  match a, b with
  | Int x, Int y => Int (x + y)
  | _, _ => NaN
  end.

(** [a < b]; a comparison with [NaN] is false. *)
Definition lt (a b : num) : bool :=
  match a, b with
  | Int x, Int y => x <? y
  | _, _ => false
  end.

Definition code (c : ascii) : Z := Z.of_N (N_of_ascii c).

Definition length (s : string) : Z := Z.of_nat (String.length s).

Fixpoint drop (n : nat) (s : string) : string :=
  match n, s with
  | S n', String _ r => drop n' r
  | _, _ => s
  end.

Fixpoint take (n : nat) (s : string) : string :=
  match n, s with
  | S n', String c r => String c (take n' r)
  | _, _ => ""
  end.

(** Relative index of [String.prototype.slice]: [NaN] is 0, a negative
    index counts from the end, and everything is clamped to [0, L]. *)
Definition toIndex (L : Z) (k : num) : Z :=
  match k with
  | NaN => 0
  | Int z => if z <? 0 then Z.max (L + z) 0 else Z.min z L
  end.

(** [s.slice(start, stop)] *)
Definition slice (s : string) (start stop : num) : string :=
  let from := toIndex (length s) start in
  let to := toIndex (length s) stop in
  take (Z.to_nat (Z.max (to - from) 0)) (drop (Z.to_nat from) s).

(** [s.substr(start, len)] *)
Definition substr (s : string) (start len : Z) : string :=
  let size := length s in
  let from := if start <? 0 then Z.max (size + start) 0 else Z.min start size in
  take (Z.to_nat (Z.min (Z.max len 0) (size - from))) (drop (Z.to_nat from) s).

Fixpoint startsWith (s p : string) : bool :=
  match p, s with
  | "", _ => true
  | String a p', String b s' => Ascii.eqb a b && startsWith s' p'
  | String _ _, "" => false
  end.

Fixpoint indexOfFrom (s p : string) (k : Z) : Z :=
  if startsWith s p then k
  else match s with
       | "" => -1
       | String _ r => indexOfFrom r p (k + 1)
       end.

(** [s.indexOf(p)]: the first position at which [p] occurs, or -1. *)
Definition indexOf (s p : string) : Z := indexOfFrom s p 0.

(** [s.includes(p)] *)
Definition includes (s p : string) : bool := 0 <=? indexOf s p.

Definition upperChar (c : ascii) : ascii :=
  if (97 <=? code c) && (code c <=? 122)
  then ascii_of_N (Z.to_N (code c - 32)) else c.

(** [s.toUpperCase()] *)
Fixpoint toUpperCase (s : string) : string :=
  match s with
  | "" => ""
  | String c r => String (upperChar c) (toUpperCase r)
  end.

(** White space and line terminators skipped by [parseInt] and [Number]. *)
Definition isWhiteSpace (c : ascii) : bool :=
  ((9 <=? code c) && (code c <=? 13)) || (code c =? 32).

Fixpoint trimStart (s : string) : string :=
  match s with
  | String c r => if isWhiteSpace c then trimStart r else s
  | "" => ""
  end.

(** Value of a character as a digit: 0-9, then a-z or A-Z for 10-35. *)
Definition digitValue (c : ascii) : option Z :=
  let n := code c in
  if (48 <=? n) && (n <=? 57) then Some (n - 48)
  else if (97 <=? n) && (n <=? 122) then Some (n - 87)
  else if (65 <=? n) && (n <=? 90) then Some (n - 55)
  else None.

Definition radixDigit (R : Z) (c : ascii) : option Z :=
  match digitValue c with
  | Some d => if d <? R then Some d else None
  | None => None
  end.

(** The value of the longest prefix of radix-[R] digits; [acc] is [None]
    until a first digit has been read. *)
Fixpoint digitsValue (R : Z) (s : string) (acc : option Z) : option Z :=
  match s with
  | String c r =>
      match radixDigit R c with
      | Some d => digitsValue R r (Some (from_option (fun a => a * R) 0 acc + d))
      | None => acc
      end
  | "" => acc
  end.

(** [parseInt(s, R)] for a radix [R] of 10 or 16: leading white space, an
    optional sign, for radix 16 an optional "0x" or "0X", then the longest
    run of digits; [NaN] when that run is empty. *)
Definition parseInt (s : string) (R : Z) : num :=
  let t := trimStart s in
  let '(sign, t) :=
    match t with
    | String c r =>
        if Ascii.eqb c "-" then (-1, r)
        else if Ascii.eqb c "+" then (1, r)
        else (1, t)
    | "" => (1, t)
    end in
  let t := if (R =? 16) && (startsWith t "0x" || startsWith t "0X")
           then drop 2 t else t in
  match digitsValue R t None with
  | None => NaN
  | Some m => Int (sign * m)
  end.

(** ToInt32, applied by the bitwise operators to their operands. *)
Definition toInt32 (z : Z) : Z := (z + 2^31) mod 2^32 - 2^31.

Definition numToInt32 (n : num) : Z :=
  match n with
  | NaN => 0
  | Int z => toInt32 z
  end.

(** [a << k], [a ^ b] and [a & b] on 32-bit integers. *)
Definition shl (a k : Z) : Z := toInt32 (Z.shiftl (toInt32 a) k).
Definition xor (a b : Z) : Z := toInt32 (Z.lxor (toInt32 a) (toInt32 b)).
Definition and (a b : Z) : Z := toInt32 (Z.land (toInt32 a) (toInt32 b)).

(** [n.toString(16)] for an integer [n]. *)
Definition toString16 (n : Z) : string :=
  match n with
  | Z0 => "0"
  | Zpos p => HexString.Raw.of_pos p ""
  | Zneg p => String "-" (HexString.Raw.of_pos p "")
  end.

Fixpoint repeatChar (n : nat) (c : ascii) : string :=
  match n with
  | O => ""
  | S n' => String c (repeatChar n' c)
  end.

(** [s.padStart(n, c)] for a one-character filler [c]. *)
Definition padStart (s : string) (n : nat) (c : ascii) : string :=
  repeatChar (n - String.length s) c ++ s.

End JS.

(** ** The TLV parser: [parseEMV] *)

(** A stored value: a plain string, or for a template tag the object
    [{ raw, sub }]. *)
#[warnings="-register-all"]
Inductive node : Type :=
  | Flat (v : string)
  | Composite (raw : string) (sub : gmap string node).

Definition isComposite (tag : string) : bool :=
  existsb (String.eqb tag) ["26"; "27"; "28"; "29"; "30"; "31"; "32"].

(** One pass through the body of the [while] loop, with the recursive call
    on the value of a template passed as [parse].  It returns the updated
    object and the cursor after the field. *)
Definition parseField (parse : string -> option (gmap string node))
    (s : string) (out : gmap string node) (i : JS.num)
    : option (gmap string node * JS.num) :=
  let tag := JS.slice s i (JS.add i (JS.Int 2)) in
  let i := JS.add i (JS.Int 2) in
  let len := JS.parseInt (JS.slice s i (JS.add i (JS.Int 2))) 10 in
  let i := JS.add i (JS.Int 2) in
  let val := JS.slice s i (JS.add i len) in
  let i := JS.add i len in
  let out := <[tag := Flat val]> out in
  if isComposite tag
  then sub ← parse val; Some (<[tag := Composite val sub]> out, i)
  else Some (out, i).

Fixpoint parseLoop (fuel : nat) (s : string) (out : gmap string node)
    (i : JS.num) {struct fuel} : option (gmap string node) :=
  match fuel with
  | O => None
  | S fuel' =>
      if JS.lt i (JS.Int (JS.length s)) then
        '(out', i') ← parseField (fun v => parseLoop fuel' v ∅ (JS.Int 0)) s out i;
        parseLoop fuel' s out' i'
      else Some out
  end.

Definition parseEMV (fuel : nat) (s : string) : option (gmap string node) :=
  parseLoop fuel s ∅ (JS.Int 0).

(** ** The CRC validator: [crc16ccitt] and [verifyCRC] *)

(** The body of the inner [for (j ...)] loop. *)
Definition crcShift (crc : Z) : Z :=
  let crc := if JS.and crc 0x8000 =? 0
             then JS.shl crc 1
             else JS.xor (JS.shl crc 1) 0x1021 in
  JS.and crc 0xFFFF.

(** The body of the outer [for (i ...)] loop: one two-character chunk. *)
Definition crcByte (hex : string) (i : Z) (crc : Z) : Z :=
  let byte := JS.parseInt (JS.substr hex i 2) 16 in
  let crc := JS.xor crc (JS.shl (JS.numToInt32 byte) 8) in
  Nat.iter 8 crcShift crc.

(** The outer loop; it runs at most [fuel] times, and [crc16ccitt] gives it
    one round per character, which is more than the loop can use. *)
Fixpoint crcLoop (fuel : nat) (hex : string) (i : Z) (crc : Z) : Z :=
  match fuel with
  | O => crc
  | S fuel' =>
      if i <? JS.length hex
      then crcLoop fuel' hex (i + 2) (crcByte hex i crc)
      else crc
  end.

Definition crc16ccitt (hex : string) : string :=
  JS.padStart (JS.toString16 (crcLoop (String.length hex) hex 0 0xFFFF)) 4 "0".

Record crcResult : Type := CrcResult {
  ok : bool;
  expected : option string;
  actual : option string
}.

Definition verifyCRC (payload : string) : crcResult :=
  let idx := JS.indexOf payload "6304" in
  if idx <? 0 then {| ok := false; expected := None; actual := None |}
  else
    let dataNoCRC := JS.slice payload (JS.Int 0) (JS.Int (idx + 4)) in
    let actual := JS.toUpperCase (JS.slice payload (JS.Int (idx + 4)) (JS.Int (idx + 8))) in
    let expected := JS.toUpperCase (crc16ccitt dataNoCRC) in
    {| ok := String.eqb expected actual;
       expected := Some expected;
       actual := Some actual |}.

(** ** [Number(text)]: conversion of a string to a binary64 number *)

Module Num.

(** The binary64 number nearest to [m * 10^e] (ties to even), [m > 0]. *)
Definition roundDecimal (m e : Z) : float :=
  if 0 <=? e
  then SF2Prim (binary_normalize prec emax (m * 10 ^ e) 0 false)
  else SF2Prim (SFdiv prec emax (S754_finite false (Z.to_pos m) 0)
                                 (S754_finite false (Z.to_pos (10 ^ (- e))) 0)).

Definition ofDecimal (negative : bool) (m e : Z) : float :=
  let x := if m =? 0 then 0%float else roundDecimal m e in
  if negative then (- x)%float else x.

(** A run of radix-[R] digits: its value, its length and what follows. *)
Fixpoint readDigits (R : Z) (s : string) (acc n : Z) : Z * Z * string :=
  match s with
  | String c r =>
      match JS.radixDigit R c with
      | Some d => readDigits R r (acc * R + d) (n + 1)
      | None => (acc, n, s)
      end
  | "" => (acc, n, "")
  end.

Definition trim (s : string) : string :=
  String.rev (JS.trimStart (String.rev (JS.trimStart s))).

(** NonDecimalIntegerLiteral: all of [s] is a non-empty run of digits. *)
Definition nonDecimal (R : Z) (s : string) : float :=
  let '(v, n, rest) := readDigits R s 0 0 in
  if (0 <? n) && String.eqb rest "" then ofDecimal false v 0 else nan.

(** ExponentPart, up to the end of the text: [None] when malformed. *)
Definition exponentPart (s : string) : option Z :=
  match s with
  | "" => Some 0
  | String c r =>
      if Ascii.eqb c "e" || Ascii.eqb c "E" then
        let '(neg, r) :=
          match r with
          | String "-" r' => (true, r')
          | String "+" r' => (false, r')
          | _ => (false, r)
          end in
        let '(v, n, rest) := readDigits 10 r 0 0 in
        if (0 <? n) && String.eqb rest "" then Some (if neg then - v else v)
        else None
      else None
  end.

(** StrUnsignedDecimalLiteral. *)
Definition unsignedDecimal (negative : bool) (s : string) : float :=
  if String.eqb s "Infinity"
  then (if negative then neg_infinity else infinity)
  else
    let '(ip, n1, r1) := readDigits 10 s 0 0 in
    let '(fp, n2, r2) :=
      match r1 with
      | String "." r => readDigits 10 r 0 0
      | _ => (0, 0, r1)
      end in
    if 0 <? n1 + n2 then
      match exponentPart r2 with
      | Some e => ofDecimal negative (ip * 10 ^ n2 + fp) (e - n2)
      | None => nan
      end
    else nan.

(** [Number(s)] for a string [s] (StringToNumber). *)
Definition ofString (s : string) : float :=
  let t := trim s in
  match t with
  | "" => 0%float
  | String "0" (String c r) =>
      if Ascii.eqb c "x" || Ascii.eqb c "X" then nonDecimal 16 r
      else if Ascii.eqb c "o" || Ascii.eqb c "O" then nonDecimal 8 r
      else if Ascii.eqb c "b" || Ascii.eqb c "B" then nonDecimal 2 r
      else unsignedDecimal false t
  | String "-" r => unsignedDecimal true r
  | String "+" r => unsignedDecimal false r
  | _ => unsignedDecimal false t
  end.

End Num.

(** ** The slip check of the checkout handler *)

Inductive status : Type :=
  | PENDING
  | REVIEW
  | VERIFIED_PRELIM.

Record verdict : Type := Verdict {
  slipStatus : status;
  slipReason : option string
}.

Definition isHexChar (c : ascii) : bool :=
  ((48 <=? JS.code c) && (JS.code c <=? 57))
  || ((65 <=? JS.code c) && (JS.code c <=? 70))
  || ((97 <=? JS.code c) && (JS.code c <=? 102)).

Fixpoint allChars (p : ascii -> bool) (s : string) : bool :=
  match s with
  | "" => true
  | String c r => p c && allChars p r
  end.

(** [/^[0-9A-F]+$/i.test(s)] *)
Definition hexShape (s : string) : bool :=
  negb (String.eqb s "") && allChars isHexChar s.

(** Truthiness of a string and of a stored value. *)
Definition truthyString (s : string) : bool := negb (String.eqb s "").

Definition truthy (x : node) : bool :=
  match x with
  | Flat v => truthyString v
  | Composite _ _ => true
  end.

(** [x?.sub] for a property [x] that may be missing; a string has no [sub]. *)
Definition subOf (x : option node) : option (gmap string node) :=
  match x with
  | Some (Composite _ sub) => Some sub
  | _ => None
  end.

(** [tlv['29']?.sub || tlv['26']?.sub || null] *)
Definition merchantTemplate (tlv : gmap string node) : option (gmap string node) :=
  match subOf (tlv !! "29") with
  | Some m => Some m
  | None => subOf (tlv !! "26")
  end.

(** [Number(x)] for a stored value; an object converts to [NaN]. *)
Definition toNumber (x : node) : float :=
  match x with
  | Flat v => Num.ofString v
  | Composite _ _ => nan
  end.

(** [tlv['54'] ? Number(tlv['54']) : null] *)
Definition amount (tlv : gmap string node) : option float :=
  match tlv !! "54" with
  | Some x => if truthy x then Some (toNumber x) else None
  | None => None
  end.

(** [(tlv['58'] || '').toString().toUpperCase()] *)
Definition currency (tlv : gmap string node) : string :=
  match tlv !! "58" with
  | Some (Flat v) => JS.toUpperCase v
  | Some (Composite _ _) => JS.toUpperCase "[object Object]"
  | None => ""
  end.

(** The test given to [some]. *)
Definition holdsAccount (expectedPromptpay : string) (v : node) : bool :=
  match v with
  | Flat s => JS.includes s expectedPromptpay
  | Composite _ _ => false
  end.

(** [accountMatches]; [None] is the [null] that [m && ...] yields when there
    is no template. *)
Definition accountMatches (expectedPromptpay : string)
    (m : option (gmap string node)) : option bool :=
  if truthyString expectedPromptpay then
    match m with
    | Some sub => Some (existsb (holdsAccount expectedPromptpay) (map_to_list sub).*2)
    | None => None
    end
  else Some true.

(** The literal [0.01]. *)
Definition tolerance : float := 0x1.47ae147ae147bp-7%float.

Definition amountMatches (amount : option float) (total : float) : bool :=
  match amount with
  | None => true
  | Some a => (abs (a - total) <? tolerance)%float
  end.

Definition currencyOK (currency : string) : bool :=
  negb (truthyString currency)
  || String.eqb currency "TH" || String.eqb currency "THB"
  || String.eqb currency "764".

(** *** [JSON.stringify] of the summary of the four checks *)

Definition dquote : string := String (ascii_of_nat 34) "".
Definition backslash : string := String (ascii_of_nat 92) "".

Definition jsonChar (c : ascii) : string :=
  let n := JS.code c in
  if n =? 34 then backslash ++ dquote
  else if n =? 92 then backslash ++ backslash
  else if n =? 8 then backslash ++ "b"
  else if n =? 12 then backslash ++ "f"
  else if n =? 10 then backslash ++ "n"
  else if n =? 13 then backslash ++ "r"
  else if n =? 9 then backslash ++ "t"
  else if n <? 32 then backslash ++ "u" ++ JS.padStart (JS.toString16 n) 4 "0"
  else String c "".

Fixpoint jsonEscape (s : string) : string :=
  match s with
  | "" => ""
  | String c r => jsonChar c ++ jsonEscape r
  end.

Definition jsonString (s : string) : string := dquote ++ jsonEscape s ++ dquote.

Definition jsonBool (b : bool) : string := if b then "true" else "false".

Definition jsonBoolOrNull (b : option bool) : string :=
  match b with
  | Some b => jsonBool b
  | None => "null"
  end.

(** [JSON.stringify({ crc: crc.ok, accountMatches, amountMatches, currency })] *)
Definition reasonJSON (crc : bool) (accountMatches : option bool)
    (amountMatches : bool) (currency : string) : string :=
  "{" ++ jsonString "crc" ++ ":" ++ jsonBool crc
  ++ "," ++ jsonString "accountMatches" ++ ":" ++ jsonBoolOrNull accountMatches
  ++ "," ++ jsonString "amountMatches" ++ ":" ++ jsonBool amountMatches
  ++ "," ++ jsonString "currency" ++ ":" ++ jsonString currency ++ "}".

(** The verdict once the payload has been verified and parsed. *)
Definition slipVerdict (crc : crcResult) (tlv : gmap string node)
    (expectedPromptpay : string) (total : float) : verdict :=
  let m := merchantTemplate tlv in
  let amount := amount tlv in
  let currency := currency tlv in
  let accountMatches := accountMatches expectedPromptpay m in
  let amountMatches := amountMatches amount total in
  let currencyOK := currencyOK currency in
  if ok crc && from_option id false accountMatches && amountMatches && currencyOK
  then {| slipStatus := VERIFIED_PRELIM; slipReason := None |}
  else {| slipStatus := REVIEW;
          slipReason := Some (reasonJSON (ok crc) accountMatches amountMatches currency) |}.

(** The [try] block of the handler, from the decoded payload on: [payload]
    is [None] when [decodeQR] failed and its [catch] gave [null].  The result
    is [None] when the parser does not finish within [fuel]. *)
Definition slipCheck (fuel : nat) (payload : option string)
    (expectedPromptpay : string) (total : float) : option verdict :=
  match payload with
  | Some p =>
      if truthyString p && hexShape p then
        let crc := verifyCRC p in
        tlv ← parseEMV fuel p;
        Some (slipVerdict crc tlv expectedPromptpay total)
      else Some {| slipStatus := REVIEW; slipReason := Some "QR not found or invalid" |}
  | None => Some {| slipStatus := REVIEW; slipReason := Some "QR not found or invalid" |}
  end.

(** ** Reference definitions, written from the specification *)

Module Spec.

(** *** CRC-16/CCITT-FALSE over a list of bytes *)

(** One shift of the 16-bit register, most significant bit first:
    polynomial 0x1021, the register masked to 16 bits. *)
Definition shift (reg : Z) : Z :=
  if Z.testbit reg 15
  then Z.land (Z.lxor (Z.shiftl reg 1) 0x1021) 0xFFFF
  else Z.land (Z.shiftl reg 1) 0xFFFF.

(** A byte is XORed into the top eight bits, then eight shifts follow. *)
Definition update (reg byte : Z) : Z :=
  Nat.iter 8 shift (Z.lxor reg (Z.shiftl byte 8)).

(** Initial register 0xFFFF, no final XOR. *)
Definition crc16 (bytes : list Z) : Z := fold_left update bytes 0xFFFF.

(** *** Hexadecimal text *)

Definition hexDigit (d : Z) : ascii :=
  ascii_of_N (Z.to_N (if d <? 10 then 48 + d else 55 + d)).

(** The lower-case digit that [toString(16)] writes. *)
Definition lowerDigit (d : Z) : ascii :=
  ascii_of_N (Z.to_N (if d <? 10 then 48 + d else 87 + d)).

(** [k] upper-case hex digits, the least significant last. *)
Fixpoint hexN (k : nat) (n : Z) : string :=
  match k with
  | O => ""
  | S k' => hexN k' (n / 16) ++ String (hexDigit (n mod 16)) ""
  end.

(** Exactly four upper-case hex digits. *)
Definition hex4 (n : Z) : string :=
  String (hexDigit (n / 4096 mod 16))
    (String (hexDigit (n / 256 mod 16))
      (String (hexDigit (n / 16 mod 16))
        (String (hexDigit (n mod 16)) ""))).

(** The place of a character in a text, counted from [k]. *)
Fixpoint position (c : ascii) (s : string) (k : Z) : option Z :=
  match s with
  | "" => None
  | String x r => if Ascii.eqb c x then Some k else position c r (k + 1)
  end.

(** The value of a hex digit, in either letter case: its place among the
    sixteen digits. *)
Definition nibble (c : ascii) : option Z :=
  match position c "0123456789ABCDEF" 0 with
  | Some v => Some v
  | None => position c "0123456789abcdef" 0
  end.

Definition isByte (x : Z) : Prop := 0 <= x < 256.

(** The value of a hex digit. *)
Definition hexValue (c : ascii) : Z := from_option id 0 (JS.digitValue c).


(** [s] contains [p]. *)
Definition contains (s p : string) : Prop :=
  exists a b, s = a ++ p ++ b.

(** *** TLV streams *)

(** The reserved template tags. *)
Definition compositeTags : list string := ["26"; "27"; "28"; "29"; "30"; "31"; "32"].

(** A length as a zero-padded two-digit decimal number. *)
Definition pad2 (n : nat) : string :=
  String (hexDigit (Z.of_nat n / 10)) (String (hexDigit (Z.of_nat n mod 10)) "").

(** tag + length + value *)
Definition encodeField (f : string * string) : string :=
  f.1 ++ pad2 (String.length f.2) ++ f.2.

Fixpoint encode (fs : list (string * string)) : string :=
  match fs with
  | [] => ""
  | f :: fs' => encodeField f ++ encode fs'
  end.

(** The object obtained by storing the pairs from left to right. *)
Definition store (out : gmap string node) (f : string * node) : gmap string node :=
  <[f.1 := f.2]> out.

Definition collect (fs : list (string * node)) : gmap string node :=
  fold_left store fs ∅.

(** [stream s fs]: the text [s] is a valid TLV stream whose fields are,
    in order, [fs]; the value of a template tag is a valid stream too. *)
Inductive stream : string -> list (string * node) -> Prop :=
  | stream_nil : stream "" []
  | stream_flat t v r fs :
      String.length t = 2%nat -> isComposite t = false ->
      (String.length v <= 99)%nat ->
      stream r fs ->
      stream (t ++ pad2 (String.length v) ++ v ++ r) ((t, Flat v) :: fs)
  | stream_template t v sub r fs :
      String.length t = 2%nat -> isComposite t = true ->
      (String.length v <= 99)%nat ->
      stream v sub -> stream r fs ->
      stream (t ++ pad2 (String.length v) ++ v ++ r)
             ((t, Composite v (collect sub)) :: fs).

(** A flat field as the parser stores it, and the side conditions on a
    flat field: a two-character tag that is not reserved, a value of at
    most 99 characters. *)
Definition flatField (f : string * string) : string * node := (f.1, Flat f.2).

Definition flatOK (f : string * string) : Prop :=
  String.length f.1 = 2%nat /\ (f.1 ∉ compositeTags) /\ (String.length f.2 <= 99)%nat.


(** After optional white space and an optional sign, [s] goes on with a
    decimal digit. *)
Definition startsNumber (s : string) : bool :=
  let t := JS.trimStart s in
  let t := match t with
           | String c r => if Ascii.eqb c "-" || Ascii.eqb c "+" then r else t
           | "" => t
           end in
  match t with
  | String c _ => (48 <=? JS.code c) && (JS.code c <=? 57)
  | "" => false
  end.

(** [s] begins with a decimal digit. *)
Definition beginsWithDigit (s : string) : bool :=
  match s with
  | String c _ => (48 <=? JS.code c) && (JS.code c <=? 57)
  | "" => false
  end.

(** *** The shape check: the regular expression [^[0-9A-F]+$] without
    regard to case *)
Definition hexDigits : string := "0123456789ABCDEFabcdef".

Definition hexText (s : string) : Prop :=
  s <> "" /\ forall c, In c (list_ascii_of_string s) -> In c (list_ascii_of_string hexDigits).

(** *** The amount rule as the specification words it: a present tag 54
    is always parsed and compared. *)
Definition amountMatches (tlv : gmap string node) (total : float) : bool :=
  match tlv !! "54" with
  | Some x => (abs (toNumber x - total) <? tolerance)%float
  | None => true
  end.

End Spec.

(** The byte that [crc16ccitt] takes from a chunk of at most two characters:
    [parseInt(chunk, 16)], of which the shifts and the mask keep the low
    eight bits, with [NaN] counting as zero. *)
Definition readByte (chunk : string) : Z :=
  match JS.parseInt chunk 16 with
  | JS.NaN => 0
  | JS.Int z => z mod 256
  end.

(** The bytes that the loop of [crc16ccitt] takes from a text, chunk by
    chunk. *)
Fixpoint readBytes (s : string) : list Z :=
  match s with
  | "" => []
  | String a "" => [readByte (String a "")]
  | String a (String b r) => readByte (String a (String b "")) :: readBytes r
  end.

(** The value read by a field, given what is left of the text and the
    parsed length. *)
Definition fieldValue (pre rest : string) (len : JS.num) : string :=
  match len with
  | JS.NaN => ""
  | JS.Int n =>
      if 0 <=? n then JS.take (Z.to_nat n) (JS.drop 4 rest)
      else JS.slice (pre ++ rest) (JS.Int (JS.length pre + 4))
                    (JS.Int (JS.length pre + 4 + n))
  end.

(** Every character of [s] differs from the minus sign. *)
Definition noMinus (c : ascii) : bool := negb (Ascii.eqb c "-").

(** [s] with the character after the prefix [u] replaced by [c]. *)
Definition replaceAt (s : string) (k : nat) (c : ascii) : string :=
  JS.take k s ++ String c (JS.drop (S k) s).

(** ** A reader of compact JSON objects, written from the JSON grammar

    The reason of a REVIEW verdict is a JSON text.  The reader below takes a
    compact object whose values are [true], [false], [null] or strings and
    returns its members in order. *)

Module Json.

Inductive value : Type :=
  | Bool (b : bool)
  | Null
  | Str (s : string).

Definition char (n : Z) : ascii := ascii_of_N (Z.to_N n).

(** The code unit written by the four hex digits of a [\u] escape. *)
Definition unicode (a b c d : ascii) : option Z :=
  match Spec.nibble a, Spec.nibble b, Spec.nibble c, Spec.nibble d with
  | Some x, Some y, Some z, Some w => Some (((x * 16 + y) * 16 + z) * 16 + w)
  | _, _, _, _ => None
  end.

Definition push (c : ascii) (r : option (string * string)) : option (string * string) :=
  match r with
  | Some (s, rest) => Some (String c s, rest)
  | None => None
  end.

(** A string literal after its opening quote: the text up to the closing
    quote with the escapes resolved, and what follows the closing quote.
    A control character must be escaped. *)
Fixpoint readChars (s : string) : option (string * string) :=
  match s with
  | "" => None
  | String c r =>
      if JS.code c =? 34 then Some ("", r)
      else if JS.code c =? 92 then
        match r with
        | String e r' =>
            if JS.code e =? 34 then push (char 34) (readChars r')
            else if JS.code e =? 92 then push (char 92) (readChars r')
            else if JS.code e =? 47 then push (char 47) (readChars r')
            else if Ascii.eqb e "b" then push (char 8) (readChars r')
            else if Ascii.eqb e "f" then push (char 12) (readChars r')
            else if Ascii.eqb e "n" then push (char 10) (readChars r')
            else if Ascii.eqb e "r" then push (char 13) (readChars r')
            else if Ascii.eqb e "t" then push (char 9) (readChars r')
            else if Ascii.eqb e "u" then
              match r' with
              | String a (String b (String x (String d r''))) =>
                  match unicode a b x d with
                  | Some n => if n <? 256 then push (char n) (readChars r'') else None
                  | None => None
                  end
              | _ => None
              end
            else None
        | "" => None
        end
      else if JS.code c <? 32 then None
      else push c (readChars r)
  end.

(** A value and what follows it. *)
Definition readValue (s : string) : option (value * string) :=
  match s with
  | String "t" (String "r" (String "u" (String "e" r))) => Some (Bool true, r)
  | String "f" (String "a" (String "l" (String "s" (String "e" r)))) =>
      Some (Bool false, r)
  | String "n" (String "u" (String "l" (String "l" r))) => Some (Null, r)
  | String c r =>
      if JS.code c =? 34 then
        match readChars r with
        | Some (t, rest) => Some (Str t, rest)
        | None => None
        end
      else None
  | "" => None
  end.

(** The members [key:value] separated by commas, up to the closing brace
    that ends the text. *)
Fixpoint readMembers (fuel : nat) (s : string) : option (list (string * value)) :=
  match fuel with
  | O => None
  | S fuel' =>
      match s with
      | String q r =>
          if JS.code q =? 34 then
            match readChars r with
            | Some (k, String ":" r2) =>
                match readValue r2 with
                | Some (v, String "," r4) =>
                    match readMembers fuel' r4 with
                    | Some ms => Some ((k, v) :: ms)
                    | None => None
                    end
                | Some (v, String "}" "") => Some [(k, v)]
                | _ => None
                end
            | _ => None
            end
          else None
      | "" => None
      end
  end.

Definition readObject (s : string) : option (list (string * value)) :=
  match s with
  | String "{" (String "}" "") => Some []
  | String "{" r => readMembers (String.length r) r
  | _ => None
  end.

End Json.

(** ** Further definitions *)

(** The text a stored value carries: the string itself, or [raw] for the
    object of a template tag. *)
Definition rawOf (x : node) : string :=
  match x with
  | Flat v => v
  | Composite raw _ => raw
  end.

(** What the loop keeps true of every binding: the key has at most two
    characters, key and stored text are pieces of the payload, and the value
    is an object exactly for a reserved tag, with [sub] the parse of [raw]. *)
Definition stored (s t : string) (x : node) : Prop :=
  (String.length t <= 2)%nat /\ Spec.contains s t
  /\ Spec.contains s (rawOf x)
  /\ if isComposite t
     then exists sub fuel, x = Composite (rawOf x) sub
                           /\ parseEMV fuel (rawOf x) = Some sub
     else x = Flat (rawOf x).

(** ** Helpers of [src/server.js] on arbitrary text

    The texts these helpers receive are names and query parameters, not QR
    payloads, and may hold any character: a text is a list of UTF-16 code
    units. *)

Definition ustring : Type := list Z.

(** WhiteSpace and LineTerminator of ECMAScript, the characters that [trim]
    strips and [\s] matches: U+0009 to U+000D, U+0020, U+00A0, U+1680,
    U+2000 to U+200A, U+2028, U+2029, U+202F, U+205F, U+3000 and U+FEFF. *)
Definition isSpace (u : Z) : bool :=
  ((0x0009 <=? u) && (u <=? 0x000D)) || (u =? 0x0020) || (u =? 0x00A0)
  || (u =? 0x1680) || ((0x2000 <=? u) && (u <=? 0x200A))
  || (u =? 0x2028) || (u =? 0x2029) || (u =? 0x202F) || (u =? 0x205F)
  || (u =? 0x3000) || (u =? 0xFEFF).

Fixpoint trimStartU (s : ustring) : ustring :=
  match s with
  | u :: r => if isSpace u then trimStartU r else s
  | [] => []
  end.

(** [s.trim()] *)
Definition trimU (s : ustring) : ustring :=
  rev (trimStartU (rev (trimStartU s))).

(** [e] is a contiguous piece of [s]. *)
Definition piece (s e : ustring) : Prop := exists a b, s = (a ++ e ++ b)%list.

(** [e] neither starts nor ends with white space. *)
Definition cleanEdges (e : ustring) : Prop :=
  forall (a : ustring) (u : Z), e = u :: a \/ e = (a ++ [u])%list -> isSpace u = false.

(** *** The list of slugs of the stock stream: [parseSlugsParam] *)

(** [s.split(',')]: the pieces between commas; the empty text gives one
    empty piece. *)
Fixpoint splitComma (s : ustring) : list ustring :=
  match s with
  | [] => [[]]
  | u :: r =>
      if u =? 44
      then [] :: splitComma r
      else match splitComma r with
           | h :: t => (u :: h) :: t
           | [] => [[u]]
           end
  end.

(** [l.join(',')] *)
Fixpoint joinComma (l : list ustring) : ustring :=
  match l with
  | [] => []
  | [x] => x
  | x :: r => (x ++ 44 :: joinComma r)%list
  end.

(** [Boolean(s)] for a text. *)
Definition nonEmpty (s : ustring) : bool :=
  match s with
  | [] => false
  | _ :: _ => true
  end.

(** [parseSlugsParam(q)] for a parameter [q] that is a string, or [None]
    when it is [undefined] and the default [''] applies:
    [String(q || '').split(',').map((s) => s.trim()).filter(Boolean).slice(0, 200)]. *)
Definition parseSlugsParam (q : option ustring) : list ustring :=
  firstn 200 (List.filter nonEmpty (map trimU (splitComma (default [] q)))).

(** All code units but the comma. *)
Definition noComma (u : Z) : bool := negb (u =? 44).

(** *** Slugs of names: [slugify] *)

(** The class [[a-z0-9ก-๙\s-]]; ก is U+0E01 and ๙ is U+0E59. *)
Definition slugKeep (u : Z) : bool :=
  ((97 <=? u) && (u <=? 122)) || ((48 <=? u) && (u <=? 57))
  || ((0x0E01 <=? u) && (u <=? 0x0E59))
  || isSpace u || (u =? 45).

Definition isHyphen (u : Z) : bool := u =? 45.

(** [s.replace(/C+/g, '-')] for a class [C] given as [p]: every maximal run
    of code units of the class becomes one hyphen.  A unit of the class that
    is followed by another one writes nothing; the last one of a run writes
    the hyphen. *)
Fixpoint replaceRuns (p : Z -> bool) (s : ustring) : ustring :=
  match s with
  | [] => []
  | u :: r =>
      if p u then
        match r with
        | d :: _ => if p d then replaceRuns p r else 45 :: replaceRuns p r
        | [] => [45]
        end
      else u :: replaceRuns p r
  end.

(** [slugify(str)] for a string, or [None] for [undefined], where the
    default [''] applies.  [String.prototype.toLowerCase] follows the case
    tables of Unicode, which are not modelled: it is the parameter
    [toLowerCase], and what is proved of [slugify] holds with any function
    in its place. *)
Definition slugify (toLowerCase : ustring -> ustring) (str : option ustring) : ustring :=
  firstn 80
    (replaceRuns isHyphen
       (replaceRuns isSpace
          (List.filter (fun u => slugKeep u)
             (toLowerCase (trimU (default [] str)))))).

(** Lower-casing of the letters A to Z only: [toLowerCase] on ASCII text. *)
Definition lowerASCII (s : ustring) : ustring :=
  map (fun u => if (65 <=? u) && (u <=? 90) then u + 32 else u) s.

(** The code units a slug is made of: [[a-z0-9ก-๙-]]. *)
Definition slugChar (u : Z) : bool :=
  ((97 <=? u) && (u <=? 122)) || ((48 <=? u) && (u <=? 57))
  || ((0x0E01 <=? u) && (u <=? 0x0E59)) || (u =? 45).

(** No two neighbours of [s] are both in the class [p]. *)
Fixpoint noRun (p : Z -> bool) (s : ustring) : bool :=
  match s with
  | u :: r =>
      match r with
      | d :: _ => negb (p u && p d) && noRun p r
      | [] => true
      end
  | [] => true
  end.

(** * Properties *)

(** ** Strings *)

#[local] Arguments String.append !_ _ / : simpl nomatch.

Section Strings.

Lemma str_length_app (a b : string) :
  String.length (a ++ b) = (String.length a + String.length b)%nat.
Proof. induction a as [|c a IH]; simpl; [reflexivity | now rewrite IH]. Qed.

Lemma str_app_nil_r (a : string) : a ++ "" = a.
Proof. induction a as [|c a IH]; simpl; [reflexivity | now rewrite IH]. Qed.

Lemma str_app_assoc (a b c : string) : (a ++ b) ++ c = a ++ b ++ c.
Proof. induction a as [|x a IH]; simpl; [reflexivity | now rewrite IH]. Qed.

Lemma str_drop_nil (n : nat) : JS.drop n "" = "".
Proof. now destruct n. Qed.

Lemma str_take_nil (n : nat) : JS.take n "" = "".
Proof. now destruct n. Qed.

Lemma str_drop_app_length (a b : string) : JS.drop (String.length a) (a ++ b) = b.
Proof. induction a as [|c a IH]; simpl; [now destruct b | exact IH]. Qed.

Lemma str_take_app_length (a b : string) : JS.take (String.length a) (a ++ b) = a.
Proof.
  induction a as [|c a IH]; simpl; [now destruct b | now rewrite IH].
Qed.

Lemma str_take_drop (n : nat) (s : string) : JS.take n s ++ JS.drop n s = s.
Proof.
  revert s; induction n as [|n IH]; intros [|c s]; simpl; try reflexivity.
  now rewrite IH.
Qed.

Lemma str_length_take (n : nat) (s : string) :
  String.length (JS.take n s) = Nat.min n (String.length s).
Proof.
  revert s; induction n as [|n IH]; intros [|c s]; simpl; try reflexivity.
  now rewrite IH.
Qed.

Lemma str_length_drop (n : nat) (s : string) :
  String.length (JS.drop n s) = (String.length s - n)%nat.
Proof.
  revert s; induction n as [|n IH]; intros [|c s]; simpl; try reflexivity.
  apply IH.
Qed.

Lemma str_take_all (n : nat) (s : string) :
  (String.length s <= n)%nat -> JS.take n s = s.
Proof.
  revert s; induction n as [|n IH]; intros [|c s]; simpl; intros H;
    try reflexivity; try lia.
  rewrite IH; [reflexivity | lia].
Qed.

Lemma str_drop_all (n : nat) (s : string) :
  (String.length s <= n)%nat -> JS.drop n s = "".
Proof.
  revert s; induction n as [|n IH]; intros [|c s]; simpl; intros H;
    try reflexivity; try lia.
  apply IH; lia.
Qed.

Lemma str_take_min (n : nat) (s : string) :
  JS.take (Nat.min n (String.length s)) s = JS.take n s.
Proof.
  revert s; induction n as [|n IH]; intros [|c s]; simpl; try reflexivity.
  now rewrite IH.
Qed.

Lemma str_drop_drop (n m : nat) (s : string) :
  JS.drop n (JS.drop m s) = JS.drop (m + n) s.
Proof.
  revert s; induction m as [|m IH]; intros s; simpl; [reflexivity|].
  destruct s as [|c s]; [now rewrite str_drop_nil | apply IH].
Qed.

Lemma str_take_app_le (n : nat) (a b : string) :
  (n <= String.length a)%nat -> JS.take n (a ++ b) = JS.take n a.
Proof.
  revert a; induction n as [|n IH]; intros [|c a]; simpl; intros H;
    try lia; try (now destruct b).
  rewrite IH; [reflexivity | lia].
Qed.

Lemma str_drop_app_le (n : nat) (a b : string) :
  (n <= String.length a)%nat -> JS.drop n (a ++ b) = JS.drop n a ++ b.
Proof.
  revert a; induction n as [|n IH]; intros [|c a]; simpl; intros H;
    try reflexivity; try lia.
  apply IH; lia.
Qed.

Lemma allChars_app (p : ascii -> bool) (a b : string) :
  allChars p (a ++ b) = allChars p a && allChars p b.
Proof.
  induction a as [|c a IH]; simpl; [reflexivity|].
  now rewrite IH, andb_assoc.
Qed.

Lemma allChars_take (p : ascii -> bool) (n : nat) (s : string) :
  allChars p s = true -> allChars p (JS.take n s) = true.
Proof.
  revert s; induction n as [|n IH]; intros [|c s]; simpl; try reflexivity.
  intros [-> H]%andb_true_iff. simpl. now apply IH.
Qed.

Lemma allChars_drop (p : ascii -> bool) (n : nat) (s : string) :
  allChars p s = true -> allChars p (JS.drop n s) = true.
Proof.
  revert s; induction n as [|n IH]; intros [|c s]; simpl; try easy.
  intros [_ H]%andb_true_iff. now apply IH.
Qed.

Lemma allChars_impl (p q : ascii -> bool) (s : string) :
  (forall c, p c = true -> q c = true) ->
  allChars p s = true -> allChars q s = true.
Proof.
  intros Hpq; induction s as [|c s IH]; simpl; [reflexivity|].
  intros [Hc H]%andb_true_iff. now rewrite (Hpq _ Hc), IH.
Qed.

(** [slice] between two positions that are not negative. *)
Lemma slice_from (pre rest : string) (k n : Z) :
  0 <= k -> 0 <= n ->
  JS.slice (pre ++ rest) (JS.Int (JS.length pre + k)) (JS.Int (JS.length pre + k + n))
  = JS.take (Z.to_nat n) (JS.drop (Z.to_nat k) rest).
Proof.
  intros Hk Hn. unfold JS.slice, JS.toIndex, JS.length.
  rewrite str_length_app.
  destruct (Z.ltb_spec (Z.of_nat (String.length pre) + k) 0); [lia|].
  destruct (Z.ltb_spec (Z.of_nat (String.length pre) + k + n) 0); [lia|].
  destruct (Z.le_gt_cases (Z.of_nat (String.length rest)) k) as [Hle|Hgt].
  - rewrite (str_drop_all (Z.to_nat k) rest) by lia.
    rewrite str_take_nil.
    rewrite str_drop_all by (rewrite str_length_app; lia).
    apply str_take_nil.
  - replace (Z.to_nat (Z.min (Z.of_nat (String.length pre) + k)
               (Z.of_nat (String.length pre + String.length rest))))
      with (String.length pre + Z.to_nat k)%nat by lia.
    rewrite <- str_drop_drop, str_drop_app_length.
    rewrite <- (str_take_min (Z.to_nat n)). f_equal.
    rewrite str_length_drop. lia.
Qed.

Lemma slice_NaN (s : string) (i : Z) :
  0 <= i -> JS.slice s (JS.Int i) JS.NaN = "".
Proof.
  intros Hi. unfold JS.slice, JS.toIndex, JS.length.
  destruct (Z.ltb_spec i 0); [lia|].
  replace (Z.to_nat _) with 0%nat by lia. now destruct (JS.drop _ _).
Qed.

End Strings.

(** ** The parser *)

Section Parser.

Implicit Types (s pre rest t v r : string) (out : gmap string node).
Implicit Types (parse : string -> option (gmap string node)).

#[local] Arguments Spec.pad2 : simpl never.
#[local] Arguments String.append : simpl never.

Lemma slice_from_eq pre rest (i j k n : Z) :
  i = JS.length pre + k -> j = i + n -> 0 <= k -> 0 <= n ->
  JS.slice (pre ++ rest) (JS.Int i) (JS.Int j)
  = JS.take (Z.to_nat n) (JS.drop (Z.to_nat k) rest).
Proof. intros -> -> Hk Hn. now apply slice_from. Qed.

Lemma str_take_app_eq (n : nat) (a b : string) :
  String.length a = n -> JS.take n (a ++ b) = a.
Proof. intros <-. apply str_take_app_length. Qed.

Lemma str_drop_app_eq (n : nat) (a b : string) :
  String.length a = n -> JS.drop n (a ++ b) = b.
Proof. intros <-. apply str_drop_app_length. Qed.

Lemma parseLoop_S fuel s out i :
  parseLoop (S fuel) s out i =
  if JS.lt i (JS.Int (JS.length s)) then
    '(out', i') ← parseField (parseEMV fuel) s out i; parseLoop fuel s out' i'
  else Some out.
Proof. reflexivity. Qed.

(** One field read at the cursor that follows [pre]. *)
Lemma parseField_at parse pre rest out :
  parseField parse (pre ++ rest) out (JS.Int (JS.length pre)) =
  let tag := JS.take 2 rest in
  let len := JS.parseInt (JS.take 2 (JS.drop 2 rest)) 10 in
  let val := fieldValue pre rest len in
  let i' := JS.add (JS.Int (JS.length pre + 4)) len in
  if isComposite tag
  then sub ← parse val; Some (<[tag := Composite val sub]> out, i')
  else Some (<[tag := Flat val]> out, i').
Proof.
  unfold parseField.
  change (JS.add (JS.Int (JS.length pre)) (JS.Int 2)) with (JS.Int (JS.length pre + 2)).
  change (JS.add (JS.Int (JS.length pre + 2)) (JS.Int 2)) with (JS.Int (JS.length pre + 2 + 2)).
  rewrite (slice_from_eq pre rest _ _ 0 2) by lia.
  rewrite (slice_from_eq pre rest _ _ 2 2) by lia.
  change (Z.to_nat 0) with 0%nat. change (Z.to_nat 2) with 2%nat.
  change (JS.drop 0 rest) with rest.
  replace (JS.length pre + 2 + 2) with (JS.length pre + 4) by lia.
  set (len := JS.parseInt _ 10).
  assert (Hval : JS.slice (pre ++ rest) (JS.Int (JS.length pre + 4))
                   (JS.add (JS.Int (JS.length pre + 4)) len)
                 = fieldValue pre rest len).
  { destruct len as [|n]; cbn [JS.add fieldValue].
    - apply slice_NaN. unfold JS.length. lia.
    - destruct (Z.leb_spec 0 n); [|reflexivity].
      now rewrite (slice_from_eq pre rest _ _ 4 n) by lia. }
  rewrite Hval. cbv zeta.
  destruct (isComposite _); [|reflexivity].
  destruct (parse _); [|reflexivity]. cbn.
  now rewrite insert_insert_eq.
Qed.

(** The same at any cursor inside the text. *)
Lemma parseField_cursor parse s out (i : Z) :
  0 <= i <= JS.length s ->
  parseField parse s out (JS.Int i) =
  parseField parse (JS.take (Z.to_nat i) s ++ JS.drop (Z.to_nat i) s) out
    (JS.Int (JS.length (JS.take (Z.to_nat i) s))).
Proof.
  intros Hi. rewrite str_take_drop. do 2 f_equal.
  unfold JS.length in *. rewrite str_length_take. lia.
Qed.

Lemma length_pad2 (n : nat) : String.length (Spec.pad2 n) = 2%nat.
Proof. reflexivity. Qed.

Lemma parseInt_pad2 (n : nat) :
  (n <= 99)%nat -> JS.parseInt (Spec.pad2 n) 10 = JS.Int (Z.of_nat n).
Proof.
  intros Hn.
  assert (H : forallb (fun k => match JS.parseInt (Spec.pad2 k) 10 with
                                | JS.Int z => z =? Z.of_nat k
                                | JS.NaN => false
                                end) (seq 0 100) = true) by (vm_compute; reflexivity).
  rewrite forallb_forall in H. specialize (H n).
  destruct (JS.parseInt _ 10).
  - discriminate H. apply in_seq. lia.
  - f_equal. apply Z.eqb_eq, H, in_seq. lia.
Qed.

(** A well-formed field: tag, two-digit length, value. *)
Lemma parseField_field parse pre t v r out :
  String.length t = 2%nat -> (String.length v <= 99)%nat ->
  parseField parse (pre ++ t ++ Spec.pad2 (String.length v) ++ v ++ r) out
    (JS.Int (JS.length pre)) =
  let i' := JS.Int (JS.length (pre ++ t ++ Spec.pad2 (String.length v) ++ v)) in
  if isComposite t
  then sub ← parse v; Some (<[t := Composite v sub]> out, i')
  else Some (<[t := Flat v]> out, i').
Proof.
  intros Ht Hv. rewrite parseField_at.
  rewrite (str_take_app_eq 2 t) by exact Ht.
  rewrite (str_drop_app_eq 2 t) by exact Ht.
  rewrite (str_take_app_eq 2 (Spec.pad2 _)) by reflexivity.
  rewrite parseInt_pad2 by exact Hv. cbn [fieldValue JS.add].
  destruct (Z.leb_spec 0 (Z.of_nat (String.length v))); [|lia].
  replace (JS.drop 4 (t ++ Spec.pad2 (String.length v) ++ v ++ r)) with (v ++ r).
  2:{ rewrite <- (str_app_assoc t). symmetry. apply str_drop_app_eq.
      now rewrite str_length_app, Ht. }
  rewrite Nat2Z.id, str_take_app_length. cbv zeta.
  replace (JS.length pre + 4 + Z.of_nat (String.length v))
    with (JS.length (pre ++ t ++ Spec.pad2 (String.length v) ++ v)).
  2:{ unfold JS.length. rewrite !str_length_app, Ht, length_pad2. lia. }
  reflexivity.
Qed.

(** More fuel never changes a result. *)
Lemma parseLoop_mono fuel : forall fuel' s out i res,
  (fuel <= fuel')%nat ->
  parseLoop fuel s out i = Some res -> parseLoop fuel' s out i = Some res.
Proof.
  induction fuel as [|fuel IH]; intros fuel' s out i res Hle H; [discriminate|].
  destruct fuel' as [|fuel']; [lia|].
  rewrite parseLoop_S in *.
  destruct (JS.lt i _); [|exact H].
  unfold parseField in *. cbv zeta in *.
  destruct (isComposite _).
  - unfold parseEMV in *.
    destruct (parseLoop fuel _ ∅ _) as [sub|] eqn:Hsub; [|discriminate].
    rewrite (IH fuel' _ _ _ sub) by (lia || assumption).
    cbn in *. apply IH; [lia | exact H].
  - cbn in *. apply IH; [lia | exact H].
Qed.

Lemma parseEMV_mono fuel fuel' s res :
  (fuel <= fuel')%nat -> parseEMV fuel s = Some res -> parseEMV fuel' s = Some res.
Proof. apply parseLoop_mono. Qed.

(** *** Valid streams are parsed back *)

Lemma parseLoop_stream s fs :
  Spec.stream s fs ->
  forall fuel pre out, (String.length s < fuel)%nat ->
    parseLoop fuel (pre ++ s) out (JS.Int (JS.length pre))
    = Some (fold_left Spec.store fs out).
Proof.
  induction 1 as [|t v r fs Ht Hc Hv _ IH|t v sub r fs Ht Hc Hv _ IHv _ IH];
    intros [|fuel] pre out Hfuel; try (simpl in Hfuel; lia);
    rewrite parseLoop_S.
  - rewrite str_app_nil_r. unfold JS.lt. now rewrite Z.ltb_irrefl.
  - assert (Hlt : JS.lt (JS.Int (JS.length pre))
              (JS.Int (JS.length (pre ++ t ++ Spec.pad2 (String.length v) ++ v ++ r))) = true).
    { apply Z.ltb_lt. unfold JS.length. rewrite !str_length_app, Ht. lia. }
    rewrite Hlt, parseField_field, Hc by assumption. cbn.
    rewrite !str_length_app, Ht, length_pad2 in Hfuel.
    replace (pre ++ t ++ Spec.pad2 (String.length v) ++ v ++ r)
      with ((pre ++ t ++ Spec.pad2 (String.length v) ++ v) ++ r)
      by now rewrite !str_app_assoc.
    apply IH. lia.
  - assert (Hlt : JS.lt (JS.Int (JS.length pre))
              (JS.Int (JS.length (pre ++ t ++ Spec.pad2 (String.length v) ++ v ++ r))) = true).
    { apply Z.ltb_lt. unfold JS.length. rewrite !str_length_app, Ht. lia. }
    rewrite Hlt, parseField_field, Hc by assumption. cbn.
    rewrite !str_length_app, Ht, length_pad2 in Hfuel.
    unfold parseEMV. rewrite (IHv fuel "" ∅) by lia. cbn.
    replace (pre ++ t ++ Spec.pad2 (String.length v) ++ v ++ r)
      with ((pre ++ t ++ Spec.pad2 (String.length v) ++ v) ++ r)
      by now rewrite !str_app_assoc.
    apply IH. lia.
Qed.

Lemma parseEMV_stream s fs fuel :
  Spec.stream s fs -> (String.length s < fuel)%nat ->
  parseEMV fuel s = Some (Spec.collect fs).
Proof. intros H Hf. exact (parseLoop_stream s fs H fuel "" ∅ Hf). Qed.

End Parser.

(** ** Termination on payloads without a minus sign *)

Section Termination.

Implicit Types (s : string) (out : gmap string node).

Lemma digitValue_nonneg (c : ascii) (d : Z) : JS.digitValue c = Some d -> 0 <= d.
Proof.
  unfold JS.digitValue.
  repeat match goal with
         | |- context [if ?b then _ else _] => destruct b eqn:?
         end; intros [= <-]; lia.
Qed.

Lemma digitsValue_nonneg (R : Z) s : forall (acc : option Z) (m : Z),
  0 <= R -> (forall a, acc = Some a -> 0 <= a) ->
  JS.digitsValue R s acc = Some m -> 0 <= m.
Proof.
  induction s as [|c s IH]; intros acc m HR Hacc; simpl.
  - intros ->. now apply Hacc.
  - unfold JS.radixDigit. destruct (JS.digitValue c) as [d|] eqn:Hd.
    + apply digitValue_nonneg in Hd.
      destruct (d <? R).
      * apply IH; [exact HR|]. intros a [= <-].
        destruct acc as [a|]; simpl; [specialize (Hacc a eq_refl); nia | lia].
      * intros ->. now apply Hacc.
    + intros ->. now apply Hacc.
Qed.

Lemma trimStart_allChars (p : ascii -> bool) s :
  allChars p s = true -> allChars p (JS.trimStart s) = true.
Proof.
  induction s as [|c s IH]; simpl; [reflexivity|].
  intros H. destruct (JS.isWhiteSpace c); [|exact H].
  apply andb_true_iff in H as [_ H]. now apply IH.
Qed.

(** Without a minus sign no length is negative. *)
Lemma parseInt_noMinus s (R n : Z) :
  0 <= R -> allChars noMinus s = true -> JS.parseInt s R = JS.Int n -> 0 <= n.
Proof.
  intros HR Hs. apply (trimStart_allChars noMinus) in Hs.
  unfold JS.parseInt. destruct (JS.trimStart s) as [|c r]; simpl in Hs.
  - destruct (_ && _); simpl; discriminate.
  - apply andb_true_iff in Hs as [Hc _]. unfold noMinus in Hc.
    destruct (Ascii.eqb c "-"); [discriminate|].
    assert (Hpos : forall t, match JS.digitsValue R t None with
                             | Some m => JS.Int (1 * m)
                             | None => JS.NaN
                             end = JS.Int n -> 0 <= n).
    { intros t. destruct (JS.digitsValue R t None) as [m|] eqn:Hm; [|discriminate].
      intros [= <-]. apply digitsValue_nonneg in Hm; [lia | exact HR | discriminate]. }
    destruct (Ascii.eqb c "+"); apply Hpos.
Qed.

Lemma parseLoop_NaN fuel s out : parseLoop (S fuel) s out JS.NaN = Some out.
Proof. reflexivity. Qed.

Lemma parseLoop_past fuel s out (i : Z) :
  JS.length s <= i -> parseLoop (S fuel) s out (JS.Int i) = Some out.
Proof.
  intros H. rewrite parseLoop_S. unfold JS.lt.
  now destruct (Z.ltb_spec i (JS.length s)); [lia|].
Qed.

(** On a payload without a minus sign the cursor only moves forward, and
    one unit of fuel per remaining character is enough. *)
Lemma parseLoop_terminates fuel : forall s out (i : Z),
  allChars noMinus s = true -> 0 <= i ->
  Z.max (JS.length s - i) 0 < Z.of_nat fuel ->
  exists res, parseLoop fuel s out (JS.Int i) = Some res.
Proof.
  induction fuel as [|fuel IH]; intros s out i Hs Hi Hfuel; [lia|].
  destruct (Z.le_gt_cases (JS.length s) i) as [Hpast|Hin].
  { exists out. now apply parseLoop_past. }
  rewrite parseLoop_S. unfold JS.lt.
  destruct (Z.ltb_spec i (JS.length s)); [|lia].
  rewrite parseField_cursor by lia. rewrite parseField_at. cbv zeta.
  set (pre := JS.take (Z.to_nat i) s). set (rest := JS.drop (Z.to_nat i) s).
  assert (Hpre : JS.length pre = i).
  { unfold pre, JS.length in *. rewrite str_length_take. lia. }
  assert (Hrest : JS.length rest = JS.length s - i).
  { unfold rest, JS.length in *. rewrite str_length_drop. lia. }
  assert (Hrs : allChars noMinus rest = true) by now apply allChars_drop.
  set (len := JS.parseInt (JS.take 2 (JS.drop 2 rest)) 10).
  assert (Hlen : forall n, len = JS.Int n -> 0 <= n).
  { intros n. apply parseInt_noMinus; [lia|].
    now apply allChars_take, allChars_drop. }
  assert (Hval : allChars noMinus (fieldValue pre rest len) = true
                 /\ JS.length (fieldValue pre rest len) < Z.of_nat fuel).
  { destruct len as [|n]; cbn [fieldValue]; [split; [reflexivity | unfold JS.length; simpl; lia]|].
    specialize (Hlen n eq_refl). destruct (Z.leb_spec 0 n); [|lia]. split.
    - now apply allChars_take, allChars_drop.
    - unfold JS.length in *. rewrite str_length_take, str_length_drop. lia. }
  destruct Hval as [Hv1 Hv2].
  clearbody pre rest len.
  assert (Hnext : forall out', exists res,
            parseLoop fuel s out'
              (JS.add (JS.Int (JS.length pre + 4)) len) = Some res).
  { intros out'. destruct len as [|n]; cbn [JS.add].
    - destruct fuel; [lia|]. exists out'. apply parseLoop_NaN.
    - specialize (Hlen n eq_refl). apply IH; [exact Hs | lia | lia]. }
  destruct (isComposite _).
  - destruct (IH (fieldValue pre rest len) ∅ 0 Hv1) as [sub Hsub]; [lia | lia |].
    unfold parseEMV. rewrite Hsub. cbn [mbind option_bind]. apply Hnext.
  - cbn [mbind option_bind]. apply Hnext.
Qed.

Lemma parseEMV_terminates s fuel :
  allChars noMinus s = true -> (String.length s < fuel)%nat ->
  exists res, parseEMV fuel s = Some res.
Proof.
  intros Hs Hf. apply parseLoop_terminates; [exact Hs | lia|].
  unfold JS.length. lia.
Qed.

Lemma isHexChar_noMinus (c : ascii) : isHexChar c = true -> noMinus c = true.
Proof.
  unfold noMinus. destruct (Ascii.eqb_spec c "-") as [->|]; [|reflexivity].
  vm_compute. discriminate.
Qed.

Lemma hexShape_noMinus s : hexShape s = true -> allChars noMinus s = true.
Proof.
  unfold hexShape. intros [_ H]%andb_true_iff.
  revert H. apply allChars_impl, isHexChar_noMinus.
Qed.

End Termination.

(** ** Round trips of the parser *)

Section RoundTrip.

Implicit Types (s t v : string) (out : gmap string node).
Implicit Types (fs : list (string * node)).

#[local] Arguments Spec.pad2 : simpl never.
#[local] Arguments String.append : simpl never.

Lemma isComposite_spec t : isComposite t = true <-> t ∈ Spec.compositeTags.
Proof.
  unfold isComposite. fold Spec.compositeTags.
  rewrite existsb_exists, list_elem_of_In. split.
  - intros (x & Hx & ->%String.eqb_eq). exact Hx.
  - intros H. exists t. split; [exact H | apply String.eqb_refl].
Qed.

Lemma isComposite_length t : isComposite t = true -> String.length t = 2%nat.
Proof.
  intros H%isComposite_spec. unfold Spec.compositeTags in H.
  repeat (apply elem_of_cons in H as [->|H]; [reflexivity|]).
  now apply elem_of_nil in H.
Qed.



Lemma fold_store_lookup fs : forall out k x,
  NoDup (fs.*1) ->
  fold_left Spec.store fs out !! k = Some x
  <-> ((k, x) ∈ fs \/ ((k ∉ fs.*1) /\ out !! k = Some x)).
Proof.
  induction fs as [|[k0 x0] fs IH]; intros out k x Hnd.
  - simpl. rewrite elem_of_nil. split; [intros H; right|intros [[]|[_ H]]; exact H].
    split; [apply not_elem_of_nil | exact H].
  - change (((k0, x0) :: fs).*1) with (k0 :: fs.*1) in *.
    apply NoDup_cons in Hnd as [Hk0 Hnd].
    change (fold_left Spec.store ((k0, x0) :: fs) out)
      with (fold_left Spec.store fs (<[k0 := x0]> out)).
    rewrite IH by exact Hnd. rewrite elem_of_cons, not_elem_of_cons.
    assert (Hin : forall y, (k0, y) ∈ fs -> False).
    { intros y Hy. apply Hk0, list_elem_of_fmap. now exists (k0, y). }
    destruct (decide (k = k0)) as [->|Hne].
    + rewrite lookup_insert_eq. split.
      * intros [H|[_ [= <-]]]; [now apply Hin in H | now left; left].
      * intros [[[= <-]|H]|[[H _] _]]; [|now apply Hin in H | congruence].
        right. split; [exact Hk0 | reflexivity].
    + rewrite lookup_insert_ne by congruence. split.
      * intros [H|[H1 H2]]; [left; now right | right; repeat split; assumption].
      * intros [[[= -> ->]|H]|[[_ H1] H2]]; [congruence | now left | now right].
Qed.

Lemma stream_encode (l : list (string * string)) :
  Forall Spec.flatOK l -> Spec.stream (Spec.encode l) (Spec.flatField <$> l).
Proof.
  induction 1 as [|[t v] l (Ht & Hc & Hv) _ IH]; simpl; [constructor|].
  unfold Spec.encodeField, Spec.flatField. simpl. rewrite !str_app_assoc.
  constructor; try assumption.
  destruct (isComposite t) eqn:E; [|reflexivity].
  now apply isComposite_spec in E.
Qed.


End RoundTrip.

(** ** Claims about the parser *)

(** Closed decidable goals, by evaluation. *)
Ltac by_decide :=
  match goal with
  | |- ?P => apply (bool_decide_unpack P); vm_compute; exact I
  end.

Section ParserClaims.

Implicit Types (s t v : string) (out : gmap string node).
Implicit Types (fs : list (string * node)).

#[local] Arguments Spec.pad2 : simpl never.
#[local] Arguments String.append : simpl never.

(** C4 — round trip on flat payloads.  For pairwise distinct two-character
    tags outside the reserved set, each with a value of at most 99
    characters, the parse of the concatenation of tag, zero-padded two-digit
    length and value returns, and the object it returns holds exactly those
    tag/value pairs. *)
Theorem parseEMV_flat_roundtrip (l : list (string * string)) :
  NoDup (l.*1) -> Forall Spec.flatOK l ->
  exists m,
    (forall fuel, (String.length (Spec.encode l) < fuel)%nat ->
       parseEMV fuel (Spec.encode l) = Some m)
    /\ forall t x, m !! t = Some x <-> exists v, x = Flat v /\ (t, v) ∈ l.
Proof.
  intros Hnd Hok. exists (Spec.collect (Spec.flatField <$> l)). split.
  - intros fuel Hf. apply parseEMV_stream; [now apply stream_encode | exact Hf].
  - intros t x. unfold Spec.collect. rewrite fold_store_lookup.
    2:{ rewrite <- list_fmap_compose. exact Hnd. }
    rewrite lookup_empty, list_elem_of_fmap. split.
    + intros [([t' v] & [= -> ->] & Hin)|[_ [=]]]. now exists v.
    + intros (v & -> & Hin). left. now exists (t, v).
Qed.

Lemma parseEMV_flat_roundtrip_witness :
  exists m,
    (forall fuel, (String.length "000201540510.005802TH" < fuel)%nat ->
       parseEMV fuel "000201540510.005802TH" = Some m)
    /\ forall t x, m !! t = Some x
         <-> exists v, x = Flat v /\ (t, v) ∈ [("00", "01"); ("54", "10.00"); ("58", "TH")].
Proof.
  apply (parseEMV_flat_roundtrip [("00", "01"); ("54", "10.00"); ("58", "TH")]).
  - by_decide.
  - repeat constructor; simpl; try lia; by_decide.
Defined.



End ParserClaims.

(** ** Truncated fields, malformed lengths and a payload that never ends *)

Section Lenient.

Implicit Types (s t v : string) (out : gmap string node).

#[local] Arguments String.append : simpl never.

(** The slices of one field in terms of what is left at the cursor. *)
Lemma slice_cursor s (i k n : Z) :
  0 <= i <= JS.length s -> 0 <= k -> 0 <= n ->
  JS.slice s (JS.Int (i + k)) (JS.Int (i + k + n))
  = JS.take (Z.to_nat n) (JS.drop (Z.to_nat k) (JS.drop (Z.to_nat i) s)).
Proof.
  intros Hi Hk Hn.
  rewrite <- (str_take_drop (Z.to_nat i) s) at 1.
  apply slice_from_eq; try lia.
  unfold JS.length in *. rewrite str_length_take. lia.
Qed.

Lemma parseField_inside (parse : string -> option (gmap string node)) s out (i : Z) :
  0 <= i <= JS.length s ->
  parseField parse s out (JS.Int i) =
  let tag := JS.slice s (JS.Int i) (JS.Int (i + 2)) in
  let len := JS.parseInt (JS.slice s (JS.Int (i + 2)) (JS.Int (i + 4))) 10 in
  let val := fieldValue (JS.take (Z.to_nat i) s) (JS.drop (Z.to_nat i) s) len in
  let i' := JS.add (JS.Int (i + 4)) len in
  if isComposite tag
  then sub ← parse val; Some (<[tag := Composite val sub]> out, i')
  else Some (<[tag := Flat val]> out, i').
Proof.
  intros Hi. rewrite parseField_cursor, parseField_at by exact Hi.
  replace (JS.length (JS.take (Z.to_nat i) s)) with i
    by (unfold JS.length in *; rewrite str_length_take; lia).
  replace (JS.slice s (JS.Int i) (JS.Int (i + 2)))
    with (JS.take 2 (JS.drop (Z.to_nat i) s)).
  2:{ symmetry. replace i with (i + 0) at 1 2 by lia.
      now rewrite (slice_cursor s i 0 2) by lia. }
  replace (JS.slice s (JS.Int (i + 2)) (JS.Int (i + 4)))
    with (JS.take 2 (JS.drop 2 (JS.drop (Z.to_nat i) s))).
  2:{ symmetry. replace (i + 4) with (i + 2 + 2) by lia.
      now rewrite (slice_cursor s i 2 2) by lia. }
  reflexivity.
Qed.

(** A declared length beyond the end of the text: the value is everything
    that is left, the loop stops after the field, and the parse returns as
    soon as the nested parse of a template does. *)
Lemma parseLoop_truncated fuel s out (i n : Z) :
  0 <= i < JS.length s ->
  JS.parseInt (JS.slice s (JS.Int (i + 2)) (JS.Int (i + 4))) 10 = JS.Int n ->
  Z.max (JS.length s - (i + 4)) 0 < n ->
  let tag := JS.slice s (JS.Int i) (JS.Int (i + 2)) in
  let left := JS.drop (Z.to_nat (i + 4)) s in
  parseLoop (S (S fuel)) s out (JS.Int i) =
  if isComposite tag
  then sub ← parseEMV (S fuel) left; Some (<[tag := Composite left sub]> out)
  else Some (<[tag := Flat left]> out).
Proof.
  intros Hi Hlen Hn tag left. rewrite parseLoop_S. unfold JS.lt.
  destruct (Z.ltb_spec i (JS.length s)); [|lia].
  rewrite parseField_inside by lia. rewrite Hlen. cbv zeta. fold tag.
  cbn [fieldValue JS.add]. destruct (Z.leb_spec 0 n); [|lia].
  replace (JS.take (Z.to_nat n) (JS.drop 4 (JS.drop (Z.to_nat i) s))) with left.
  2:{ unfold left. rewrite str_drop_drop.
      replace (Z.to_nat i + 4)%nat with (Z.to_nat (i + 4)) by lia.
      symmetry. apply str_take_all. rewrite str_length_drop.
      unfold JS.length in *. lia. }
  destruct (isComposite tag).
  - destruct (parseEMV (S fuel) left) as [sub|]; [|reflexivity].
    cbn [mbind option_bind]. apply parseLoop_past. lia.
  - cbn [mbind option_bind]. apply parseLoop_past. lia.
Qed.




Lemma digitsValue_Some (R : Z) s : forall a, JS.digitsValue R s (Some a) <> None.
Proof.
  induction s as [|c s IH]; intros a; simpl; [discriminate|].
  destruct (JS.radixDigit R c); [apply IH | discriminate].
Qed.

Lemma radixDigit_10 (c : ascii) :
  JS.radixDigit 10 c = None <-> (48 <=? JS.code c) && (JS.code c <=? 57) = false.
Proof.
  unfold JS.radixDigit, JS.digitValue.
  destruct (Z.leb_spec 48 (JS.code c)), (Z.leb_spec (JS.code c) 57); simpl;
    repeat match goal with
           | |- context [Z.leb ?a ?b] => destruct (Z.leb_spec a b); simpl
           | |- context [Z.ltb ?a ?b] => destruct (Z.ltb_spec a b); simpl
           end; split; try discriminate; try reflexivity; lia.
Qed.

(** When [parseInt(s, 10)] is [NaN]. *)
Lemma parseInt_NaN_iff s :
  JS.parseInt s 10 = JS.NaN <-> Spec.startsNumber s = false.
Proof.
  unfold JS.parseInt, Spec.startsNumber.
  assert (H : forall t, match JS.digitsValue 10 t None with
                        | Some _ => False
                        | None => True
                        end <-> match t with
                                | String c _ => (48 <=? JS.code c) && (JS.code c <=? 57)
                                | "" => false
                                end = false).
  { intros [|c r]; simpl; [easy|]. rewrite <- radixDigit_10.
    destruct (JS.radixDigit 10 c); [|easy].
    destruct (JS.digitsValue 10 r _) eqn:E; [easy|].
    now apply digitsValue_Some in E. }
  assert (H' : forall sign t, match JS.digitsValue 10 t None with
                              | Some m => JS.Int (sign * m)
                              | None => JS.NaN
                              end = JS.NaN
                              <-> match t with
                                  | String c _ => (48 <=? JS.code c) && (JS.code c <=? 57)
                                  | "" => false
                                  end = false).
  { intros sign t. rewrite <- H. destruct (JS.digitsValue 10 t None); easy. }
  change (10 =? 16) with false. cbn [andb].
  destruct (JS.trimStart s) as [|c r]; [apply H'|].
  destruct (Ascii.eqb c "-"); [apply H'|].
  destruct (Ascii.eqb c "+"); apply H'.
Qed.

(** C10 (as amended) — when the base-10 parse of the length field of a field
    read inside the payload is [NaN], the parse returns: the tag of that
    field is bound to the empty string (to [{ raw: "", sub: {} }] for a
    template tag), nothing after the length field is read, and every other
    binding made before is kept. *)
Theorem parseLoop_length_NaN fuel s out (i : Z) :
  0 <= i < JS.length s ->
  JS.parseInt (JS.slice s (JS.Int (i + 2)) (JS.Int (i + 4))) 10 = JS.NaN ->
  let tag := JS.slice s (JS.Int i) (JS.Int (i + 2)) in
  parseLoop (S (S fuel)) s out (JS.Int i)
  = Some (<[tag := if isComposite tag then Composite "" ∅ else Flat ""]> out).
Proof.
  intros Hi Hlen tag. rewrite parseLoop_S. unfold JS.lt.
  destruct (Z.ltb_spec i (JS.length s)); [|lia].
  rewrite parseField_inside by lia. rewrite Hlen. cbv zeta. fold tag.
  cbn [fieldValue JS.add]. destruct (isComposite tag); reflexivity.
Qed.

Lemma parseLoop_length_NaN_witness :
  parseLoop 2 "0002AB54xx99" (<["00" := Flat "AB"]> ∅) (JS.Int 6)
  = Some (<["54" := Flat ""]> (<["00" := Flat "AB"]> ∅)).
Proof.
  apply (parseLoop_length_NaN 0 "0002AB54xx99" (<["00" := Flat "AB"]> ∅) 6).
  - vm_compute. split; [discriminate | reflexivity].
  - reflexivity.
Defined.

(** C10, counterexample — the length field "+3" does not begin with a
    decimal digit, yet its parse is 3 and the tag is bound to "abc". *)
Lemma parseEMV_signed_length_counterexample :
  let s := "00+3abc" in
  let lengthField := JS.slice s (JS.Int 2) (JS.Int 4) in
  Spec.beginsWithDigit lengthField = false
  /\ JS.parseInt lengthField 10 = JS.Int 3
  /\ parseEMV 2 s = Some (<["00" := Flat "abc"]> ∅)
  /\ parseEMV 2 s <> Some (<["00" := Flat ""]> ∅).
Proof.
  repeat split; try reflexivity.
  intros H. assert (H' : parseEMV 2 "00+3abc" = Some (<["00" := Flat "abc"]> ∅)) by reflexivity.
  rewrite H' in H.
  assert (E : (<["00" := Flat "abc"]> ∅ : gmap string node) !! "00"
              = (<["00" := Flat ""]> ∅ : gmap string node) !! "00") by congruence.
  rewrite !lookup_insert_eq in E. discriminate E.
Qed.

End Lenient.

(** ** The checksum *)

Section Checksum.

Lemma toInt32_mod (z k : Z) :
  0 <= k <= 32 -> JS.toInt32 z mod 2 ^ k = z mod 2 ^ k.
Proof.
  intros Hk. unfold JS.toInt32.
  rewrite (Z.mod_eq (z + 2 ^ 31) (2 ^ 32)) by lia.
  replace (z + 2 ^ 31 - 2 ^ 32 * ((z + 2 ^ 31) / 2 ^ 32) - 2 ^ 31)
    with (z + (- ((z + 2 ^ 31) / 2 ^ 32) * 2 ^ (32 - k)) * 2 ^ k).
  - apply Z_mod_plus_full.
  - replace (2 ^ 32) with (2 ^ (32 - k) * 2 ^ k)
      by (rewrite <- Z.pow_add_r by lia; f_equal; lia).
    ring.
Qed.

Lemma toInt32_id (z : Z) : - 2 ^ 31 <= z < 2 ^ 31 -> JS.toInt32 z = z.
Proof.
  intros H. unfold JS.toInt32. rewrite Z.mod_small by lia. lia.
Qed.

Lemma toInt32_mod16 (z : Z) : JS.toInt32 z mod 65536 = z mod 65536.
Proof. apply (toInt32_mod z 16). lia. Qed.

Lemma lxor_mod16 (a b : Z) :
  Z.lxor a b mod 65536 = Z.lxor (a mod 65536) (b mod 65536).
Proof.
  replace 65536 with (2 ^ 16) by reflexivity. apply Z.bits_inj'. intros n Hn.
  rewrite Z.lxor_spec. destruct (Z.lt_ge_cases n 16).
  - now rewrite !Z.mod_pow2_bits_low, Z.lxor_spec by lia.
  - now rewrite !Z.mod_pow2_bits_high by lia.
Qed.

Lemma land_mod16 (a m : Z) :
  0 <= m < 65536 -> Z.land a m = Z.land (a mod 65536) m.
Proof.
  intros Hm. replace 65536 with (2 ^ 16) in * by reflexivity. apply Z.bits_inj'. intros n Hn.
  rewrite !Z.land_spec. destruct (Z.lt_ge_cases n 16).
  - now rewrite Z.mod_pow2_bits_low by lia.
  - assert (Z.testbit m n = false) as ->; [|now rewrite !andb_false_r].
    destruct (Z.eq_dec m 0) as [->|]; [apply Z.bits_0|].
    apply Z.bits_above_log2; [lia|].
    assert (Z.log2 m < 16) by (apply Z.log2_lt_pow2; lia). lia.
Qed.

Lemma land_small (a m : Z) : 0 <= m < 65536 -> 0 <= Z.land a m < 65536.
Proof.
  intros Hm. rewrite (land_mod16 a m Hm).
  assert (Ha : 0 <= a mod 65536 < 65536) by (apply Z.mod_pos_bound; lia).
  set (r := a mod 65536) in *. split; [apply Z.land_nonneg; lia|].
  destruct (Z.eq_dec (Z.land r m) 0) as [->|Hne]; [lia|].
  assert (0 <= Z.land r m) by (apply Z.land_nonneg; lia).
  assert (0 < r) by (destruct (Z.eq_dec r 0) as [E|]; [rewrite E, Z.land_0_l in Hne|]; lia).
  replace 65536 with (2 ^ 16) in * by reflexivity. apply Z.log2_lt_pow2; [lia|].
  pose proof (Z.log2_land r m ltac:(lia) ltac:(lia)).
  assert (Z.log2 r < 16) by (apply Z.log2_lt_pow2; lia). lia.
Qed.

(** [x & m] for a 16-bit mask [m]. *)
Lemma and_mask (x m : Z) :
  0 <= m < 65536 -> JS.and x m = Z.land (x mod 65536) m.
Proof.
  intros Hm. unfold JS.and. rewrite (toInt32_id m) by lia.
  rewrite (land_mod16 (JS.toInt32 x) m Hm), toInt32_mod16.
  apply toInt32_id. pose proof (land_small (x mod 65536) m Hm). lia.
Qed.

Lemma and_FFFF (x : Z) : JS.and x 0xFFFF = x mod 65536.
Proof.
  rewrite and_mask by lia. replace 0xFFFF with (Z.ones 16) by reflexivity.
  rewrite Z.land_ones by lia. apply Z.mod_mod. discriminate.
Qed.

Lemma shl_mod16 (a k : Z) :
  0 <= k -> JS.shl a k mod 65536 = ((a mod 65536) * 2 ^ k) mod 65536.
Proof.
  intros Hk. unfold JS.shl. rewrite toInt32_mod16, Z.shiftl_mul_pow2 by lia.
  rewrite <- Z.mul_mod_idemp_l by discriminate.
  now rewrite toInt32_mod16.
Qed.

Lemma xor_mod16 (a b : Z) :
  JS.xor a b mod 65536 = Z.lxor (a mod 65536) (b mod 65536).
Proof.
  unfold JS.xor. now rewrite toInt32_mod16, lxor_mod16, !toInt32_mod16.
Qed.

Lemma land_bit15 (r : Z) : (Z.land r 0x8000 =? 0) = negb (Z.testbit r 15).
Proof.
  replace 0x8000 with (2 ^ 15) by reflexivity. destruct (Z.testbit r 15) eqn:E; simpl.
  - apply Z.eqb_neq. intros H.
    assert (H' : Z.testbit (Z.land r (2 ^ 15)) 15 = true)
      by (rewrite Z.land_spec, E, Z.pow2_bits_true by lia; reflexivity).
    rewrite H, Z.bits_0 in H'. discriminate.
  - apply Z.eqb_eq, Z.bits_inj'. intros n Hn.
    rewrite Z.land_spec, Z.bits_0, Z.pow2_bits_eqb by lia.
    destruct (Z.eqb_spec 15 n) as [<-|]; [now rewrite E | apply andb_false_r].
Qed.

(** The code's shift in terms of the low 16 bits of the register. *)
Lemma crcShift_eq (c : Z) :
  crcShift c =
  if Z.testbit (c mod 65536) 15
  then Z.lxor ((c mod 65536 * 2) mod 65536) 0x1021
  else (c mod 65536 * 2) mod 65536.
Proof.
  unfold crcShift. rewrite and_FFFF, (and_mask _ 0x8000), land_bit15 by lia.
  destruct (Z.testbit (c mod 65536) 15); simpl.
  - rewrite xor_mod16, shl_mod16 by lia. reflexivity.
  - rewrite shl_mod16 by lia. reflexivity.
Qed.

Lemma shift_eq (r : Z) :
  Spec.shift r =
  if Z.testbit r 15
  then Z.lxor ((r mod 65536 * 2) mod 65536) 0x1021
  else (r mod 65536 * 2) mod 65536.
Proof.
  unfold Spec.shift. replace 0xFFFF with (Z.ones 16) by reflexivity.
  rewrite !Z.land_ones by lia. replace (2 ^ 16) with 65536 by reflexivity.
  rewrite lxor_mod16, Z.shiftl_mul_pow2 by lia. replace (2 ^ 1) with 2 by reflexivity.
  rewrite <- (Z.mul_mod_idemp_l r 2) by discriminate.
  now destruct (Z.testbit r 15).
Qed.

(** On a 16-bit register the code's shift is the reference shift. *)
Lemma crcShift_shift (r : Z) : 0 <= r < 65536 -> crcShift r = Spec.shift r.
Proof.
  intros Hr. rewrite crcShift_eq, shift_eq. now rewrite !(Z.mod_small r) by lia.
Qed.

Lemma crcShift_mod16 (c : Z) : crcShift c = Spec.shift (c mod 65536).
Proof.
  rewrite crcShift_eq, shift_eq. now rewrite !(Z.mod_mod c) by discriminate.
Qed.

Lemma shift_range (r : Z) : 0 <= Spec.shift r < 65536.
Proof.
  unfold Spec.shift. replace 0xFFFF with (Z.ones 16) by reflexivity.
  rewrite !Z.land_ones by lia.
  destruct (Z.testbit r 15); apply Z.mod_pos_bound; lia.
Qed.

Lemma iter_shift_range (n : nat) (r : Z) :
  0 <= r < 65536 -> 0 <= Nat.iter n Spec.shift r < 65536.
Proof. intros Hr. destruct n as [|n]; simpl; [exact Hr | apply shift_range]. Qed.

Lemma iter_crcShift (n : nat) (c : Z) :
  Nat.iter (S n) crcShift c = Nat.iter (S n) Spec.shift (c mod 65536).
Proof.
  induction n as [|n IH].
  - rewrite !Nat.iter_succ. apply crcShift_mod16.
  - rewrite (Nat.iter_succ (S n) crcShift), (Nat.iter_succ (S n) Spec.shift).
    rewrite IH, crcShift_mod16. f_equal. apply Z.mod_small.
    apply (iter_shift_range (S n)). apply Z.mod_pos_bound. lia.
Qed.

Lemma update_range (reg byte : Z) : 0 <= Spec.update reg byte < 65536.
Proof. unfold Spec.update. apply shift_range. Qed.

(** One chunk: the code's update is the reference update with the byte of
    the chunk. *)
Lemma crcByte_update (hex : string) (i crc : Z) :
  0 <= crc < 65536 ->
  crcByte hex i crc = Spec.update crc (readByte (JS.substr hex i 2)).
Proof.
  intros Hc. unfold crcByte, Spec.update, readByte.
  rewrite iter_crcShift. f_equal.
  rewrite xor_mod16, shl_mod16, (Z.mod_small crc) by lia. f_equal.
  destruct (JS.parseInt _ 16) as [|z]; [reflexivity|].
  cbn [JS.numToInt32]. rewrite toInt32_mod16, Z.shiftl_mul_pow2 by lia.
  replace (2 ^ 8) with 256 by reflexivity. Z.div_mod_to_equations. lia.
Qed.

End Checksum.

(** ** From the loops of [crc16ccitt] to the reference checksum *)

Section Refinement.

Implicit Types (s p a b pre rest : string).

Lemma substr_at pre rest :
  JS.substr (pre ++ rest) (JS.length pre) 2 = JS.take 2 rest.
Proof.
  unfold JS.substr, JS.length. rewrite str_length_app.
  destruct (Z.ltb_spec (Z.of_nat (String.length pre)) 0); [lia|].
  rewrite (Z.min_l (Z.of_nat (String.length pre))) by lia.
  rewrite Nat2Z.id, str_drop_app_length.
  rewrite <- (str_take_min 2 rest). f_equal. lia.
Qed.

(** The loop over the chunks folds the reference update over the bytes. *)
Lemma crcLoop_fold (fuel : nat) : forall rest pre (crc : Z),
  0 <= crc < 65536 -> (String.length rest <= fuel)%nat ->
  crcLoop fuel (pre ++ rest) (JS.length pre) crc
  = fold_left Spec.update (readBytes rest) crc.
Proof.
  induction fuel as [|fuel IH]; intros rest pre crc Hc Hf.
  - destruct rest; [reflexivity | simpl in Hf; lia].
  - cbn [crcLoop]. destruct rest as [|x [|y rest]].
    + assert (E : (JS.length pre <? JS.length (pre ++ "")) = false)
        by (apply Z.ltb_ge; unfold JS.length; rewrite str_length_app; simpl; lia).
      rewrite E. reflexivity.
    + assert (E : (JS.length pre <? JS.length (pre ++ String x "")) = true)
        by (apply Z.ltb_lt; unfold JS.length; rewrite str_length_app; simpl; lia).
      rewrite E, crcByte_update, substr_at by exact Hc.
      cbn [JS.take readBytes fold_left].
      destruct fuel as [|fuel]; [reflexivity|]. cbn [crcLoop].
      assert (E' : (JS.length pre + 2 <? JS.length (pre ++ String x "")) = false)
        by (apply Z.ltb_ge; unfold JS.length; rewrite str_length_app; simpl; lia).
      rewrite E'. reflexivity.
    + assert (E : (JS.length pre <? JS.length (pre ++ String x (String y rest))) = true)
        by (apply Z.ltb_lt; unfold JS.length; rewrite str_length_app; simpl; lia).
      rewrite E, crcByte_update, substr_at by exact Hc.
      cbn [JS.take readBytes fold_left].
      replace (pre ++ String x (String y rest))
        with ((pre ++ String x (String y "")) ++ rest)
        by (rewrite str_app_assoc; reflexivity).
      replace (JS.length pre + 2) with (JS.length (pre ++ String x (String y "")))
        by (unfold JS.length; rewrite str_length_app; simpl; lia).
      apply IH; [apply update_range | simpl in Hf; lia].
Qed.

Lemma crcLoop_crc16 (hex : string) :
  crcLoop (String.length hex) hex 0 0xFFFF = Spec.crc16 (readBytes hex).
Proof.
  apply (crcLoop_fold (String.length hex) hex "" 0xFFFF); lia.
Qed.

Lemma crc16_range (l : list Z) : 0 <= Spec.crc16 l < 65536.
Proof.
  unfold Spec.crc16.
  assert (H : forall r, 0 <= r < 65536 -> 0 <= fold_left Spec.update l r < 65536).
  { induction l as [|b l IH]; intros r Hr; simpl; [exact Hr|].
    apply IH, update_range. }
  apply H. lia.
Qed.

End Refinement.

(** ** Hexadecimal rendering *)

Section Rendering.

Implicit Types (s a b : string).

Lemma toUpperCase_app a b :
  JS.toUpperCase (a ++ b) = JS.toUpperCase a ++ JS.toUpperCase b.
Proof. induction a as [|c a IH]; simpl; [reflexivity | now rewrite IH]. Qed.

Lemma length_toUpperCase s : String.length (JS.toUpperCase s) = String.length s.
Proof. induction s as [|c s IH]; simpl; [reflexivity | now rewrite IH]. Qed.

Lemma of_pos_rest : forall (p : positive) (rest : string),
  HexString.Raw.of_pos p rest = HexString.Raw.of_pos p "" ++ rest.
Proof.
  fix IH 1. intros p rest.
  do 4 try destruct p as [p|p|]; try reflexivity;
    cbn [HexString.Raw.of_pos];
    rewrite (IH p (String _ rest)), (IH p (String _ ""));
    rewrite str_app_assoc; reflexivity.
Qed.

Ltac digit_cases d H :=
  assert (d = 0 \/ d = 1 \/ d = 2 \/ d = 3 \/ d = 4 \/ d = 5 \/ d = 6 \/ d = 7
          \/ d = 8 \/ d = 9 \/ d = 10 \/ d = 11 \/ d = 12 \/ d = 13 \/ d = 14
          \/ d = 15) as H by lia;
  repeat destruct H as [H|H]; subst d.

Lemma toString16_small (d : Z) :
  0 <= d < 16 -> JS.toString16 d = String (Spec.lowerDigit d) "".
Proof. intros Hd. digit_cases d H; reflexivity. Qed.

Lemma toString16_step (q d : Z) :
  0 < q -> 0 <= d < 16 ->
  JS.toString16 (16 * q + d) = JS.toString16 q ++ String (Spec.lowerDigit d) "".
Proof.
  intros Hq Hd. destruct q as [|p|p]; try lia.
  digit_cases d H;
    match goal with
    | |- JS.toString16 ?x = _ => let y := eval lazy in x in change x with y
    end;
    cbn [JS.toString16 HexString.Raw.of_pos]; apply of_pos_rest.
Qed.

Lemma upper_lowerDigit (d : Z) :
  0 <= d < 16 -> JS.upperChar (Spec.lowerDigit d) = Spec.hexDigit d.
Proof. intros Hd. digit_cases d H; reflexivity. Qed.

Lemma length_toString16 (r : Z) (k : nat) :
  0 <= r < 16 ^ Z.of_nat (S k) -> (String.length (JS.toString16 r) <= S k)%nat.
Proof.
  revert r; induction k as [|k IH]; intros r Hr.
  - rewrite toString16_small by (simpl in Hr; lia). simpl. lia.
  - destruct (Z.lt_ge_cases r 16) as [Hs|Hl].
    + rewrite toString16_small by lia. simpl. lia.
    + rewrite (Z.div_mod r 16) at 1 by lia.
      rewrite toString16_step by (Z.div_mod_to_equations; lia).
      rewrite str_length_app. simpl.
      assert (0 <= r / 16 < 16 ^ Z.of_nat (S k)).
      { rewrite Nat2Z.inj_succ, Z.pow_succ_r in Hr by lia.
        Z.div_mod_to_equations. lia. }
      specialize (IH (r / 16) H). lia.
Qed.

Lemma hexN_zero (k : nat) : Spec.hexN k 0 = JS.repeatChar k "0".
Proof.
  induction k as [|k IH]; [reflexivity|].
  cbn [Spec.hexN]. change (0 / 16) with 0. rewrite IH.
  clear IH. induction k as [|k IH]; [reflexivity|].
  simpl. now rewrite IH.
Qed.

Lemma toUpperCase_zeros (k : nat) :
  JS.toUpperCase (JS.repeatChar k "0") = JS.repeatChar k "0".
Proof. induction k as [|k IH]; simpl; [reflexivity | now rewrite IH]. Qed.

(** [toString(16)], padded to [k] digits and upper-cased. *)
Lemma render_hexN (k : nat) : forall r,
  0 <= r < 16 ^ Z.of_nat (S k) ->
  JS.toUpperCase (JS.padStart (JS.toString16 r) (S k) "0") = Spec.hexN (S k) r.
Proof.
  induction k as [|k IH]; intros r Hr.
  - rewrite toString16_small by (simpl in Hr; lia).
    cbn [Spec.hexN]. simpl. rewrite upper_lowerDigit by (simpl in Hr; lia).
    now rewrite Z.mod_small by (simpl in Hr; lia).
  - destruct (Z.lt_ge_cases r 16) as [Hs|Hl].
    + rewrite toString16_small by lia. unfold JS.padStart.
      cbn [String.length Nat.sub]. rewrite toUpperCase_app, toUpperCase_zeros.
      cbn [Spec.hexN JS.toUpperCase].
      rewrite upper_lowerDigit, (Z.mod_small r 16), (Z.div_small r 16) by lia.
      change (0 / 16) with 0. now rewrite <- hexN_zero.
    + assert (Hq : 0 < r / 16 < 16 ^ Z.of_nat (S k)).
      { rewrite Nat2Z.inj_succ, Z.pow_succ_r in Hr by lia.
        Z.div_mod_to_equations. lia. }
      rewrite (Z.div_mod r 16) at 1 by lia.
      rewrite toString16_step by (Z.div_mod_to_equations; lia).
      unfold JS.padStart. rewrite str_length_app.
      replace (S (S k) - (String.length (JS.toString16 (r / 16)) + String.length (String (Spec.lowerDigit (r mod 16)) "")))%nat
        with (S k - String.length (JS.toString16 (r / 16)))%nat by (simpl; lia).
      rewrite <- str_app_assoc, toUpperCase_app.
      fold (JS.padStart (JS.toString16 (r / 16)) (S k) "0").
      rewrite IH by lia. cbn [JS.toUpperCase].
      rewrite upper_lowerDigit by (Z.div_mod_to_equations; lia).
      reflexivity.
Qed.

Lemma hex4_hexN (r : Z) : Spec.hex4 r = Spec.hexN 4 r.
Proof.
  unfold Spec.hex4. cbn [Spec.hexN]. rewrite !Z.div_div by lia.
  reflexivity.
Qed.

(** What [crc16ccitt] renders, upper-cased, is the four-digit text. *)
Lemma render_hex4 (r : Z) :
  0 <= r < 65536 ->
  JS.toUpperCase (JS.padStart (JS.toString16 r) 4 "0") = Spec.hex4 r.
Proof. intros Hr. rewrite hex4_hexN. apply (render_hexN 3). simpl. lia. Qed.

Lemma length_hex4 (r : Z) : String.length (Spec.hex4 r) = 4%nat.
Proof. reflexivity. Qed.

Lemma hexDigit_inj (a b : Z) :
  0 <= a < 16 -> 0 <= b < 16 -> Spec.hexDigit a = Spec.hexDigit b -> a = b.
Proof.
  intros Ha Hb H. apply (f_equal N_of_ascii) in H. unfold Spec.hexDigit in H.
  rewrite !N_ascii_embedding in H
    by (destruct (a <? 10), (b <? 10); lia).
  destruct (Z.ltb_spec a 10), (Z.ltb_spec b 10); lia.
Qed.

Lemma hex4_inj (a b : Z) :
  0 <= a < 65536 -> 0 <= b < 65536 -> Spec.hex4 a = Spec.hex4 b -> a = b.
Proof.
  intros Ha Hb H. unfold Spec.hex4 in H.
  injection H as H3 H2 H1 H0.
  apply hexDigit_inj in H3, H2, H1, H0;
    try (apply Z.mod_pos_bound; lia).
  Z.div_mod_to_equations. lia.
Qed.

End Rendering.

(** ** The CRC validator *)

Section Validator.

Implicit Types (s p a b pre post payload : string).

Lemma startsWith_spec p : forall s,
  JS.startsWith s p = true <-> exists b, s = p ++ b.
Proof.
  induction p as [|x p IH]; intros s.
  - split; [intros _; now exists s | intros _; now destruct s].
  - destruct s as [|c s]; simpl.
    + split; [discriminate | intros (b & [=])].
    + rewrite andb_true_iff, IH. split.
      * intros [->%Ascii.eqb_eq (b & ->)]. now exists b.
      * intros (b & [= -> ->]). split; [apply Ascii.eqb_refl | now exists b].
Qed.

Lemma indexOfFrom_unfold s p (k : Z) :
  JS.indexOfFrom s p k =
  if JS.startsWith s p then k
  else match s with
       | "" => -1
       | String _ r => JS.indexOfFrom r p (k + 1)
       end.
Proof. destruct s; reflexivity. Qed.

(** [indexOf] finds the first occurrence, or answers -1 when there is none. *)
Lemma indexOfFrom_spec p s : forall k, 0 <= k ->
  (JS.indexOfFrom s p k = -1 /\ ~ Spec.contains s p)
  \/ exists a b, s = a ++ p ++ b
       /\ JS.indexOfFrom s p k = k + JS.length a
       /\ forall a' b', s = a' ++ p ++ b' -> (String.length a <= String.length a')%nat.
Proof.
  induction s as [|c s IH]; intros k Hk; rewrite indexOfFrom_unfold;
    destruct (JS.startsWith _ p) eqn:E.
  - right. apply startsWith_spec in E as (b & E). exists "", b.
    repeat split; [exact E | unfold JS.length; simpl; lia | simpl; lia].
  - left. split; [reflexivity|]. intros (a & b & H).
    destruct a; [|discriminate]. simpl in H.
    assert (JS.startsWith "" p = true) by (apply startsWith_spec; now exists b).
    congruence.
  - right. apply startsWith_spec in E as (b & E). exists "", b.
    repeat split; [exact E | unfold JS.length; simpl; lia | simpl; lia].
  - assert (Hnot : forall b, String c s <> p ++ b).
    { intros b H. assert (JS.startsWith (String c s) p = true)
        by (apply startsWith_spec; now exists b). congruence. }
    destruct (IH (k + 1)) as [[Hr Hno]|(a & b & Hs & Hr & Hmin)]; [lia | |].
    + left. split; [exact Hr|]. intros (a & b & H).
      destruct a as [|x a]; simpl in H; [now apply Hnot in H|].
      injection H as _ H. apply Hno. now exists a, b.
    + right. exists (String c a), b. repeat split.
      * simpl. now rewrite Hs.
      * rewrite Hr. unfold JS.length. simpl String.length. lia.
      * intros a' b' H. destruct a' as [|x a']; simpl in H; [now apply Hnot in H|].
        injection H as _ H. apply Hmin in H. simpl. lia.
Qed.

Lemma indexOf_found payload p :
  Spec.contains payload p ->
  exists pre post, payload = pre ++ p ++ post
    /\ JS.indexOf payload p = JS.length pre
    /\ forall a b, payload = a ++ p ++ b -> (String.length pre <= String.length a)%nat.
Proof.
  intros Hc. destruct (indexOfFrom_spec p payload 0) as [[_ Hno]|(a & b & H1 & H2 & H3)];
    [lia | contradiction|].
  exists a, b. repeat split; [exact H1 | exact H2 | exact H3].
Qed.

Lemma slice_prefix s (n : Z) :
  0 <= n -> JS.slice s (JS.Int 0) (JS.Int n) = JS.take (Z.to_nat n) s.
Proof.
  intros Hn. apply (slice_from_eq "" s 0 n 0 n); unfold JS.length; simpl; lia.
Qed.

Lemma slice_middle s (k n : Z) :
  0 <= k -> 0 <= n ->
  JS.slice s (JS.Int k) (JS.Int (k + n)) = JS.take (Z.to_nat n) (JS.drop (Z.to_nat k) s).
Proof.
  intros Hk Hn. apply (slice_from_eq "" s k (k + n) k n); unfold JS.length; simpl; lia.
Qed.

(** The checksum that [crc16ccitt] renders. *)
Lemma crc16ccitt_spec (hex : string) :
  JS.toUpperCase (crc16ccitt hex) = Spec.hex4 (Spec.crc16 (readBytes hex)).
Proof.
  unfold crc16ccitt. rewrite crcLoop_crc16. apply render_hex4, crc16_range.
Qed.

(** [verifyCRC] on a payload whose first marker follows [pre]. *)
Lemma verifyCRC_at pre post :
  JS.indexOf (pre ++ "6304" ++ post) "6304" = JS.length pre ->
  verifyCRC (pre ++ "6304" ++ post) =
  let E := Spec.hex4 (Spec.crc16 (readBytes (pre ++ "6304"))) in
  let A := JS.toUpperCase (JS.take 4 post) in
  {| ok := String.eqb E A; expected := Some E; actual := Some A |}.
Proof.
  intros Hidx. unfold verifyCRC. rewrite Hidx.
  destruct (Z.ltb_spec (JS.length pre) 0); [unfold JS.length in *; lia|].
  rewrite slice_prefix by lia.
  replace (JS.length pre + 8) with (JS.length pre + 4 + 4) by lia.
  rewrite slice_middle by lia.
  assert (Hlen : Z.to_nat (JS.length pre + 4) = String.length (pre ++ "6304"))
    by (unfold JS.length; rewrite str_length_app; simpl; lia).
  rewrite Hlen, <- (str_app_assoc pre "6304" post).
  rewrite str_take_app_length, str_drop_app_length, crc16ccitt_spec.
  reflexivity.
Qed.

End Validator.

(** ** Sensitivity of the checksum *)

Section Sensitivity.

Implicit Types (s u w post : string).

Lemma testbit15 (r : Z) : 0 <= r < 65536 -> Z.testbit r 15 = (32768 <=? r).
Proof.
  intros Hr. rewrite Z.testbit_odd, Z.shiftr_div_pow2 by lia.
  replace (2 ^ 15) with 32768 by reflexivity.
  destruct (Z.leb_spec 32768 r).
  - replace (r / 32768) with 1 by (Z.div_mod_to_equations; lia). reflexivity.
  - replace (r / 32768) with 0 by (Z.div_mod_to_equations; lia). reflexivity.
Qed.

Lemma lxor_cancel_r (a b c : Z) : Z.lxor a c = Z.lxor b c -> a = b.
Proof.
  intros H. apply (f_equal (fun x => Z.lxor x c)) in H.
  now rewrite !Z.lxor_assoc, Z.lxor_nilpotent, !Z.lxor_0_r in H.
Qed.

Lemma lxor_cancel_l (a b c : Z) : Z.lxor c a = Z.lxor c b -> a = b.
Proof. rewrite !(Z.lxor_comm c). apply lxor_cancel_r. Qed.

Lemma odd_lxor (a b : Z) : Z.odd (Z.lxor a b) = xorb (Z.odd a) (Z.odd b).
Proof. rewrite <- !Z.bit0_odd. apply Z.lxor_spec. Qed.

(** The low bit of the shifted register tells the bit that was shifted out. *)
Lemma odd_shift (r : Z) : 0 <= r < 65536 -> Z.odd (Spec.shift r) = (32768 <=? r).
Proof.
  intros Hr. rewrite shift_eq, testbit15, (Z.mod_small r) by lia.
  assert (He : Z.odd ((r * 2) mod 65536) = false).
  { rewrite <- Z.negb_even. replace (Z.even _) with true; [reflexivity|].
    symmetry. apply Z.even_spec.
    destruct (Z.lt_ge_cases r 32768).
    - exists r. rewrite Z.mod_small by lia. lia.
    - exists (r - 32768).
      replace (r * 2) with (r * 2 - 65536 + 1 * 65536) by lia.
      rewrite Z_mod_plus_full, Z.mod_small by lia. lia. }
  destruct (32768 <=? r); [|exact He].
  now rewrite odd_lxor, He.
Qed.

Lemma shift_inj (a b : Z) :
  0 <= a < 65536 -> 0 <= b < 65536 -> Spec.shift a = Spec.shift b -> a = b.
Proof.
  intros Ha Hb H.
  assert (Hbit : (32768 <=? a) = (32768 <=? b))
    by (rewrite <- !odd_shift by assumption; now rewrite H).
  rewrite !shift_eq, !testbit15, !(Z.mod_small a 65536), !(Z.mod_small b 65536) in H by lia.
  rewrite <- Hbit in H.
  destruct (Z.leb_spec 32768 a), (Z.leb_spec 32768 b); try discriminate;
    cbv iota in H; try apply lxor_cancel_r in H; Z.div_mod_to_equations; lia.
Qed.

Lemma iter_shift_inj (n : nat) (a b : Z) :
  0 <= a < 65536 -> 0 <= b < 65536 ->
  Nat.iter n Spec.shift a = Nat.iter n Spec.shift b -> a = b.
Proof.
  intros Ha Hb. induction n as [|n IH]; [easy|].
  rewrite !Nat.iter_succ. intros H. apply IH.
  apply shift_inj; [now apply iter_shift_range.. | exact H].
Qed.

Lemma lxor_range16 (a b : Z) :
  0 <= a < 65536 -> 0 <= b < 65536 -> 0 <= Z.lxor a b < 65536.
Proof.
  intros Ha Hb. rewrite <- (Z.mod_small a 65536), <- (Z.mod_small b 65536) by lia.
  rewrite <- lxor_mod16. apply Z.mod_pos_bound. lia.
Qed.

Lemma shiftl8_range (x : Z) : 0 <= x < 256 -> 0 <= Z.shiftl x 8 < 65536.
Proof. intros Hx. rewrite Z.shiftl_mul_pow2 by lia. lia. Qed.

(** The update is injective in the register and in the byte. *)
Lemma update_inj_reg (r r' x : Z) :
  0 <= r < 65536 -> 0 <= r' < 65536 -> 0 <= x < 256 ->
  Spec.update r x = Spec.update r' x -> r = r'.
Proof.
  intros Hr Hr' Hx H. unfold Spec.update in H.
  apply iter_shift_inj in H; try (apply lxor_range16; [lia | now apply shiftl8_range]).
  now apply lxor_cancel_r in H.
Qed.

Lemma update_inj_byte (r x y : Z) :
  0 <= r < 65536 -> 0 <= x < 256 -> 0 <= y < 256 ->
  Spec.update r x = Spec.update r y -> x = y.
Proof.
  intros Hr Hx Hy H. unfold Spec.update in H.
  apply iter_shift_inj in H; try (apply lxor_range16; [lia | now apply shiftl8_range]).
  apply lxor_cancel_l in H. rewrite !Z.shiftl_mul_pow2 in H by lia. lia.
Qed.

Lemma fold_update_range (l : list Z) (r : Z) :
  0 <= r < 65536 -> 0 <= fold_left Spec.update l r < 65536.
Proof.
  revert r; induction l as [|b l IH]; intros r Hr; simpl; [exact Hr|].
  apply IH, update_range.
Qed.

Lemma fold_update_inj (l : list Z) : forall r r',
  Forall Spec.isByte l -> 0 <= r < 65536 -> 0 <= r' < 65536 ->
  fold_left Spec.update l r = fold_left Spec.update l r' -> r = r'.
Proof.
  induction l as [|b l IH]; intros r r' Hl Hr Hr' H; simpl in H; [exact H|].
  apply Forall_cons in Hl as [Hb Hl].
  apply IH in H; [|exact Hl | apply update_range..].
  now apply update_inj_reg in H.
Qed.

(** Two messages that differ in one byte have different checksums. *)
Lemma crc16_one_byte (l1 l2 : list Z) (x y : Z) :
  Forall Spec.isByte l2 -> Spec.isByte x -> Spec.isByte y -> x <> y ->
  Spec.crc16 (l1 ++ x :: l2) <> Spec.crc16 (l1 ++ y :: l2).
Proof.
  intros Hl Hx Hy Hne H. unfold Spec.crc16 in H.
  rewrite !fold_left_app in H. simpl in H.
  apply fold_update_inj in H; [|exact Hl | apply update_range..].
  apply update_inj_byte in H; [contradiction | | exact Hx | exact Hy].
  apply fold_update_range. lia.
Qed.

End Sensitivity.

(** ** One hex digit replaced before the marker *)

Section Replacement.

Implicit Types (s u w post : string) (c : ascii).

Lemma hexChar_facts c :
  isHexChar c = true ->
  JS.isWhiteSpace c = false /\ Ascii.eqb c "-" = false /\ Ascii.eqb c "+" = false
  /\ Ascii.eqb "x" c = false /\ Ascii.eqb "X" c = false
  /\ JS.digitValue c = Some (Spec.hexValue c) /\ 0 <= Spec.hexValue c < 16.
Proof.
  destruct c as [[] [] [] [] [] [] [] []]; intros H; cbv in H; try discriminate H;
    repeat split; try reflexivity; cbv; discriminate.
Qed.

(** Two hex digits spell the byte [16 * h + l]; one alone spells [h]. *)
Lemma chunkByte_hex (a b : ascii) :
  isHexChar a = true -> isHexChar b = true ->
  readByte (String a (String b "")) = 16 * Spec.hexValue a + Spec.hexValue b.
Proof.
  intros (Hw & Hm & Hp & _ & _ & Ha & Hra)%hexChar_facts
         (_ & _ & _ & Hx & HX & Hb & Hrb)%hexChar_facts.
  unfold readByte, JS.parseInt. cbn [JS.trimStart]. rewrite Hw, Hm, Hp.
  cbn [JS.startsWith]. rewrite Hx, HX, !andb_false_r. cbn [orb andb].
  replace (16 =? 16) with true by reflexivity. cbn [andb].
  cbn [JS.digitsValue]. unfold JS.radixDigit. rewrite Ha, Hb.
  destruct (Z.ltb_spec (Spec.hexValue a) 16); [|lia].
  destruct (Z.ltb_spec (Spec.hexValue b) 16); [|lia].
  cbn [from_option]. rewrite Z.mod_small by lia. lia.
Qed.

Lemma chunkByte_hex1 (a : ascii) :
  isHexChar a = true -> readByte (String a "") = Spec.hexValue a.
Proof.
  intros (Hw & Hm & Hp & _ & _ & Ha & Hra)%hexChar_facts.
  unfold readByte, JS.parseInt. cbn [JS.trimStart]. rewrite Hw, Hm, Hp.
  cbn [JS.startsWith]. rewrite !andb_false_r. cbn [orb andb].
  cbn [JS.digitsValue]. unfold JS.radixDigit. rewrite Ha.
  destruct (Z.ltb_spec (Spec.hexValue a) 16); [|lia].
  cbn [from_option]. rewrite Z.mod_small by lia. lia.
Qed.

Lemma chunkByte_range s : Spec.isByte (readByte s).
Proof.
  unfold readByte, Spec.isByte. destruct (JS.parseInt s 16); [lia|].
  apply Z.mod_pos_bound. lia.
Qed.

Lemma hexBytes_range : forall (n : nat) s,
  (String.length s <= n)%nat -> Forall Spec.isByte (readBytes s).
Proof.
  induction n as [|n IH]; intros [|a [|b s]] Hs; simpl in *;
    repeat constructor; try apply chunkByte_range; try lia.
  apply IH. lia.
Qed.

(** Replacing one hex digit by one of another value changes one byte. *)
Lemma hexBytes_replace : forall (n : nat) u w c c',
  (String.length u <= n)%nat ->
  allChars isHexChar (u ++ String c w) = true -> isHexChar c' = true ->
  Spec.hexValue c' <> Spec.hexValue c ->
  exists l1 x y l2,
    readBytes (u ++ String c w) = (l1 ++ x :: l2)%list
    /\ readBytes (u ++ String c' w) = (l1 ++ y :: l2)%list
    /\ x <> y /\ Spec.isByte x /\ Spec.isByte y /\ Forall Spec.isByte l2.
Proof.
  induction n as [|n IH]; intros u w c c' Hu Hall Hc' Hne.
  - destruct u; [|simpl in Hu; lia]. simpl in Hall.
    apply andb_true_iff in Hall as [Hc Hw].
    destruct w as [|d w]; simpl.
    + exists [], (readByte (String c "")), (readByte (String c' "")), [].
      repeat split; try apply chunkByte_range; [|constructor].
      rewrite !chunkByte_hex1 by assumption. congruence.
    + simpl in Hw. apply andb_true_iff in Hw as [Hd Hw].
      exists [], (readByte (String c (String d ""))),
             (readByte (String c' (String d ""))), (readBytes w).
      repeat split; try apply chunkByte_range;
        [|apply (hexBytes_range (String.length w)); lia].
      rewrite !chunkByte_hex by assumption. lia.
  - destruct u as [|a [|b u]].
    + apply (IH "" w c c'); [simpl; lia | assumption..].
    + simpl in Hall. apply andb_true_iff in Hall as [Ha Hall].
      apply andb_true_iff in Hall as [Hc Hw]. simpl.
      exists [], (readByte (String a (String c ""))),
             (readByte (String a (String c' ""))), (readBytes w).
      repeat split; try apply chunkByte_range;
        [|apply (hexBytes_range (String.length w)); lia].
      rewrite !chunkByte_hex by assumption. lia.
    + simpl in Hall. apply andb_true_iff in Hall as [Ha Hall].
      apply andb_true_iff in Hall as [Hb Hall].
      destruct (IH u w c c') as (l1 & x & y & l2 & H1 & H2 & H3);
        [simpl in Hu; lia | assumption..|].
      exists (readByte (String a (String b "")) :: l1), x, y, l2.
      simpl. rewrite H1, H2. repeat split; try reflexivity; apply H3.
Qed.

End Replacement.

(** ** The reference checksum of hex text *)

Section ValidatorClaim.

Implicit Types (s pre post payload : string).







End ValidatorClaim.

(** ** Claims about the checksum *)

Section ChecksumClaims.

Implicit Types (s u w post : string) (c : ascii).

(** C9 (as amended) — on a payload that [verifyCRC] accepts and whose
    characters before the first marker are hex digits, replacing one of
    those characters by a hex digit of another value changes [expected] and
    makes [ok] false, provided the first "6304" of the modified payload is
    still where it was. *)
Theorem verifyCRC_sensitive u w post c c' :
  let payload := u ++ String c w ++ "6304" ++ post in
  let payload' := u ++ String c' w ++ "6304" ++ post in
  allChars isHexChar (u ++ String c w) = true ->
  isHexChar c' = true ->
  Spec.hexValue c' <> Spec.hexValue c ->
  JS.indexOf payload "6304" = JS.length (u ++ String c w) ->
  JS.indexOf payload' "6304" = JS.length (u ++ String c' w) ->
  ok (verifyCRC payload) = true ->
  expected (verifyCRC payload') <> expected (verifyCRC payload)
  /\ ok (verifyCRC payload') = false.
Proof.
  intros payload payload' Hall Hc' Hne Hidx Hidx' Hok.
  assert (Hp : payload = (u ++ String c w) ++ "6304" ++ post)
    by (unfold payload; rewrite str_app_assoc; reflexivity).
  assert (Hp' : payload' = (u ++ String c' w) ++ "6304" ++ post)
    by (unfold payload'; rewrite str_app_assoc; reflexivity).
  rewrite Hp in Hidx, Hok |- *. rewrite Hp' in Hidx' |- *.
  rewrite (verifyCRC_at _ post Hidx) in Hok |- *.
  rewrite (verifyCRC_at _ post Hidx'). cbv zeta in *. cbn [ok expected] in *.
  apply String.eqb_eq in Hok.
  assert (Hdiff : Spec.hex4 (Spec.crc16 (readBytes ((u ++ String c' w) ++ "6304")))
                  <> Spec.hex4 (Spec.crc16 (readBytes ((u ++ String c w) ++ "6304")))).
  { rewrite !str_app_assoc. cbn [String.append].
    destruct (hexBytes_replace (String.length u) u (w ++ "6304") c c')
      as (l1 & x & y & l2 & -> & -> & Hxy & Hx & Hy & Hl2); try assumption; [lia| |].
    - rewrite allChars_app in Hall |- *. cbn [allChars] in Hall |- *.
      rewrite allChars_app.
      apply andb_true_iff in Hall as [Hu [Hc Hw]%andb_true_iff].
      rewrite Hu, Hc, Hw. reflexivity.
    - intros H. apply hex4_inj in H; try apply crc16_range.
      now apply crc16_one_byte in H. }
  split; [congruence|].
  apply String.eqb_neq. rewrite <- Hok. exact Hdiff.
Qed.

Lemma verifyCRC_sensitive_witness :
  expected (verifyCRC "0002026304D5A9") <> expected (verifyCRC "0002016304D5A9")
  /\ ok (verifyCRC "0002026304D5A9") = false.
Proof.
  apply (verifyCRC_sensitive "00020" "" "D5A9" "1" "2"); try reflexivity.
  vm_compute. discriminate.
Defined.

(** C9, counterexamples — three payloads that [verifyCRC] accepts, each
    with a hex digit before the marker replaced by a different hex digit,
    and still accepted: the letter "a" replaced by "A"; a replacement that
    creates an earlier "6304"; a digit whose chunk begins with a character
    that is not a hex digit. *)
Lemma verifyCRC_sensitive_counterexample :
  (let p := "0a630415A0" in
   ok (verifyCRC p) = true /\ 1 < JS.indexOf p "6304"
   /\ String.get 1 p = Some "a"%char /\ isHexChar "a" = true /\ isHexChar "A" = true
   /\ expected (verifyCRC (replaceAt p 1 "A")) = expected (verifyCRC p)
   /\ ok (verifyCRC (replaceAt p 1 "A")) = true)
  /\ (let p := "620403F263045B5D" in
      ok (verifyCRC p) = true /\ 1 < JS.indexOf p "6304"
      /\ String.get 1 p = Some "2"%char /\ isHexChar "2" = true /\ isHexChar "3" = true
      /\ ok (verifyCRC (replaceAt p 1 "3")) = true)
  /\ (let p := "G56304D261" in
      ok (verifyCRC p) = true /\ 1 < JS.indexOf p "6304"
      /\ String.get 1 p = Some "5"%char /\ isHexChar "5" = true /\ isHexChar "6" = true
      /\ expected (verifyCRC (replaceAt p 1 "6")) = expected (verifyCRC p)
      /\ ok (verifyCRC (replaceAt p 1 "6")) = true).
Proof. repeat split. Qed.

End ChecksumClaims.

(** ** The slip check *)

Section Policy.

Implicit Types (s p : string) (c : ascii) (tlv : gmap string node) (total : float).

Lemma isHexChar_spec c :
  isHexChar c = true <-> In c (list_ascii_of_string Spec.hexDigits).
Proof.
  split.
  - destruct c as [[] [] [] [] [] [] [] []]; intros H; cbv in H; try discriminate H;
      cbn; tauto.
  - cbn. intros H. repeat (destruct H as [<-|H]; [reflexivity|]). destruct H.
Qed.

Lemma allChars_spec (q : ascii -> bool) s :
  allChars q s = true <-> forall c, In c (list_ascii_of_string s) -> q c = true.
Proof.
  induction s as [|x s IH]; simpl.
  - split; [intros _ c [] | reflexivity].
  - rewrite andb_true_iff, IH. split.
    + intros [Hx Hs] c [<-|Hc]; [exact Hx | now apply Hs].
    + intros H. split; [apply H; now left | intros c Hc; apply H; now right].
Qed.

(** The shape check is the regular expression. *)
Lemma hexShape_spec s : hexShape s = true <-> Spec.hexText s.
Proof.
  unfold hexShape, Spec.hexText. rewrite andb_true_iff, negb_true_iff, allChars_spec.
  rewrite String.eqb_neq. split; intros [H1 H2]; (split; [exact H1|]);
    intros c Hc; apply isHexChar_spec, H2, Hc.
Qed.

(** C8 — a payload that is [null], empty, or not made of hex digits only
    gives REVIEW with the reason "QR not found or invalid"; this holds with
    any fuel, even none, so neither the parser nor anything after it is
    involved, and nothing is raised. *)
Theorem slipCheck_invalid (fuel : nat) (payload : option string)
    (expectedPromptpay : string) total :
  payload = None \/ payload = Some ""
  \/ (exists s, payload = Some s /\ ~ Spec.hexText s) ->
  slipCheck fuel payload expectedPromptpay total
  = Some {| slipStatus := REVIEW; slipReason := Some "QR not found or invalid" |}.
Proof.
  intros [->|[->|(s & -> & Hs)]]; try reflexivity.
  unfold slipCheck. destruct (hexShape s) eqn:E.
  - now apply hexShape_spec in E.
  - now rewrite andb_false_r.
Qed.

Lemma slipCheck_invalid_witness :
  slipCheck 0 (Some "5802TH5406100.00") "0812345678" 100
  = Some {| slipStatus := REVIEW; slipReason := Some "QR not found or invalid" |}.
Proof.
  apply slipCheck_invalid. right. right. eexists. split; [reflexivity|].
  intros H%hexShape_spec. vm_compute in H. discriminate H.
Defined.

(** What the check answers once the payload has the right shape. *)
Lemma slipCheck_shape (fuel : nat) p (expectedPromptpay : string) total :
  hexShape p = true ->
  slipCheck fuel (Some p) expectedPromptpay total
  = (tlv ← parseEMV fuel p;
     Some (slipVerdict (verifyCRC p) tlv expectedPromptpay total)).
Proof.
  intros H. unfold slipCheck. rewrite H.
  unfold hexShape in H. apply andb_true_iff in H as [H _].
  unfold truthyString. now rewrite H.
Qed.

(** *** The reason as a JSON text *)

Lemma readChars_jsonChar (c : ascii) t :
  Json.readChars (jsonChar c ++ t) = Json.push c (Json.readChars t).
Proof. destruct c as [[] [] [] [] [] [] [] []]; reflexivity. Qed.

(** The reader gives back the text that [JSON.stringify] escaped. *)
Lemma readChars_jsonEscape s : forall t,
  Json.readChars (jsonEscape s ++ dquote ++ t) = Some (s, t).
Proof.
  induction s as [|c s IH]; intros t; [reflexivity|].
  cbn [jsonEscape]. rewrite str_app_assoc, readChars_jsonChar, IH. reflexivity.
Qed.

Lemma readValue_jsonString s t :
  Json.readValue (jsonString s ++ t) = Some (Json.Str s, t).
Proof.
  unfold jsonString. rewrite !str_app_assoc.
  change (dquote ++ jsonEscape s ++ dquote ++ t)
    with (String (ascii_of_nat 34) (jsonEscape s ++ dquote ++ t)).
  cbn [Json.readValue]. rewrite readChars_jsonEscape. reflexivity.
Qed.

Lemma readValue_jsonBool (b : bool) t :
  Json.readValue (jsonBool b ++ t) = Some (Json.Bool b, t).
Proof. destruct b; reflexivity. Qed.

Lemma readValue_jsonBoolOrNull (b : option bool) t :
  Json.readValue (jsonBoolOrNull b ++ t) = Some (from_option Json.Bool Json.Null b, t).
Proof. destruct b as [[|]|]; reflexivity. Qed.

Lemma readMembers_more (f : nat) (k vt : string) (v : Json.value) rest :
  Json.readValue (vt ++ "," ++ rest) = Some (v, "," ++ rest) ->
  Json.readMembers (S f) (jsonString k ++ ":" ++ vt ++ "," ++ rest)
  = match Json.readMembers f rest with
    | Some ms => Some ((k, v) :: ms)
    | None => None
    end.
Proof.
  intros Hv. unfold jsonString. rewrite !str_app_assoc.
  change (dquote ++ jsonEscape k ++ dquote ++ ":" ++ vt ++ "," ++ rest)
    with (String (ascii_of_nat 34) (jsonEscape k ++ dquote ++ ":" ++ vt ++ "," ++ rest)).
  cbn [Json.readMembers]. change (JS.code (ascii_of_nat 34) =? 34) with true. cbv iota.
  rewrite readChars_jsonEscape.
  change (":" ++ vt ++ "," ++ rest) with (String ":" (vt ++ "," ++ rest)).
  cbv iota beta. rewrite Hv. reflexivity.
Qed.

Lemma readMembers_last (f : nat) (k vt : string) (v : Json.value) :
  Json.readValue (vt ++ "}") = Some (v, "}") ->
  Json.readMembers (S f) (jsonString k ++ ":" ++ vt ++ "}") = Some [(k, v)].
Proof.
  intros Hv. unfold jsonString. rewrite !str_app_assoc.
  change (dquote ++ jsonEscape k ++ dquote ++ ":" ++ vt ++ "}")
    with (String (ascii_of_nat 34) (jsonEscape k ++ dquote ++ ":" ++ vt ++ "}")).
  cbn [Json.readMembers]. change (JS.code (ascii_of_nat 34) =? 34) with true. cbv iota.
  rewrite readChars_jsonEscape.
  change (":" ++ vt ++ "}") with (String ":" (vt ++ "}")).
  cbv iota beta. rewrite Hv. reflexivity.
Qed.

(** Read as JSON, the reason is the object of the four results. *)
Lemma readObject_reasonJSON (crc : bool) (account : option bool) (amountOK : bool)
    (cur : string) :
  Json.readObject (reasonJSON crc account amountOK cur)
  = Some [("crc", Json.Bool crc);
          ("accountMatches", from_option Json.Bool Json.Null account);
          ("amountMatches", Json.Bool amountOK);
          ("currency", Json.Str cur)].
Proof.
  unfold reasonJSON.
  set (body := jsonString "crc" ++ _).
  assert (Hopen : Json.readObject ("{" ++ body)
                  = Json.readMembers (String.length body) body) by reflexivity.
  rewrite Hopen.
  assert (Hlen : exists f, String.length body = S (S (S (S f)))).
  { unfold body. rewrite str_length_app.
    change (String.length (jsonString "crc")) with 5%nat. now eexists. }
  destruct Hlen as [f ->]. unfold body.
  rewrite (readMembers_more _ "crc" _ (Json.Bool crc)) by apply readValue_jsonBool.
  rewrite (readMembers_more _ "accountMatches" _ (from_option Json.Bool Json.Null account))
    by apply readValue_jsonBoolOrNull.
  rewrite (readMembers_more _ "amountMatches" _ (Json.Bool amountOK))
    by apply readValue_jsonBool.
  rewrite (readMembers_last _ "currency" _ (Json.Str cur)) by apply readValue_jsonString.
  reflexivity.
Qed.

(** C3 (as amended) — for every payload of the right shape the check
    returns a verdict; it is VERIFIED_PRELIM exactly when the CRC is ok, the
    account match is [true] and the amount and the currency match; otherwise
    it is REVIEW and the reason is a JSON text which, read back, is the
    object of the four results: [crc] and [amountMatches] are booleans,
    [currency] is the currency text, and [accountMatches] is a boolean or
    [null], [null] exactly when an identifier is configured and the payload
    has no merchant template.  No other status is returned. *)
Theorem slipCheck_verdict (fuel : nat) p (expectedPromptpay : string) total :
  hexShape p = true -> (String.length p < fuel)%nat ->
  exists tlv v,
    parseEMV fuel p = Some tlv
    /\ slipCheck fuel (Some p) expectedPromptpay total = Some v
    /\ let crc := ok (verifyCRC p) in
       let account := accountMatches expectedPromptpay (merchantTemplate tlv) in
       let amountOK := amountMatches (amount tlv) total in
       let cur := currency tlv in
       (slipStatus v = VERIFIED_PRELIM
        <-> crc = true /\ account = Some true /\ amountOK = true /\ currencyOK cur = true)
       /\ (slipStatus v = VERIFIED_PRELIM -> slipReason v = None)
       /\ (slipStatus v <> VERIFIED_PRELIM ->
           slipStatus v = REVIEW
           /\ exists reason,
                slipReason v = Some reason
                /\ Json.readObject reason
                   = Some [("crc", Json.Bool crc);
                           ("accountMatches", from_option Json.Bool Json.Null account);
                           ("amountMatches", Json.Bool amountOK);
                           ("currency", Json.Str cur)])
       /\ (account = None <-> expectedPromptpay <> "" /\ merchantTemplate tlv = None)
       /\ (slipStatus v = VERIFIED_PRELIM \/ slipStatus v = REVIEW).
Proof.
  intros Hshape Hfuel.
  destruct (parseEMV_terminates p fuel (hexShape_noMinus p Hshape) Hfuel) as [tlv Htlv].
  exists tlv, (slipVerdict (verifyCRC p) tlv expectedPromptpay total).
  split; [exact Htlv|]. split; [now rewrite slipCheck_shape, Htlv|].
  cbv zeta.
  assert (Hnull : accountMatches expectedPromptpay (merchantTemplate tlv) = None
                  <-> expectedPromptpay <> "" /\ merchantTemplate tlv = None).
  { unfold accountMatches, truthyString.
    destruct (String.eqb_spec expectedPromptpay "") as [->|Hne]; cbn [negb].
    - split; [discriminate | now intros [[] _]].
    - destruct (merchantTemplate tlv); split;
        [discriminate | now intros [_ [=]] | now split | reflexivity]. }
  assert (Hreason : forall (a : bool) (b : option bool) (a' : bool) (d : string),
            exists reason, Some (reasonJSON a b a' d) = Some reason
              /\ Json.readObject reason
                 = Some [("crc", Json.Bool a);
                         ("accountMatches", from_option Json.Bool Json.Null b);
                         ("amountMatches", Json.Bool a');
                         ("currency", Json.Str d)]).
  { intros a b a' d. eexists. split; [reflexivity | apply readObject_reasonJSON]. }
  unfold slipVerdict. cbv zeta.
  destruct (ok (verifyCRC p));
    destruct (accountMatches expectedPromptpay (merchantTemplate tlv)) as [[|]|];
    destruct (amountMatches (amount tlv) total);
    destruct (currencyOK (currency tlv)); cbn [andb from_option id slipStatus slipReason];
    (split;
     [split;
      [intros H; first [discriminate H | repeat split; reflexivity]
      |intros (H1 & H2 & H3 & H4); first [reflexivity | congruence]]
     |split;
      [intros H; first [reflexivity | discriminate H]
      |split;
       [intros H; first [now destruct H | split; [reflexivity | apply Hreason]]
       |split; [exact Hnull | first [now left | now right]]]]]).
Qed.

Lemma slipCheck_verdict_witness :
  exists tlv v,
    parseEMV 9 "630403F2" = Some tlv
    /\ slipCheck 9 (Some "630403F2") "" 100 = Some v
    /\ let crc := ok (verifyCRC "630403F2") in
       let account := accountMatches "" (merchantTemplate tlv) in
       let amountOK := amountMatches (amount tlv) 100 in
       let cur := currency tlv in
       (slipStatus v = VERIFIED_PRELIM
        <-> crc = true /\ account = Some true /\ amountOK = true /\ currencyOK cur = true)
       /\ (slipStatus v = VERIFIED_PRELIM -> slipReason v = None)
       /\ (slipStatus v <> VERIFIED_PRELIM ->
           slipStatus v = REVIEW
           /\ exists reason,
                slipReason v = Some reason
                /\ Json.readObject reason
                   = Some [("crc", Json.Bool crc);
                           ("accountMatches", from_option Json.Bool Json.Null account);
                           ("amountMatches", Json.Bool amountOK);
                           ("currency", Json.Str cur)])
       /\ (account = None <-> "" <> "" /\ merchantTemplate tlv = None)
       /\ (slipStatus v = VERIFIED_PRELIM \/ slipStatus v = REVIEW).
Proof.
  apply (slipCheck_verdict 9 "630403F2" "" 100); [reflexivity | simpl; lia].
Defined.

(** C3, counterexample — with the identifier "0812345678" configured, the
    payload "630403F2" has the right shape and no merchant template; the
    verdict is REVIEW and the account entry of the reason is [null], not a
    boolean. *)
Lemma slipCheck_verdict_counterexample :
  let p := "630403F2" in
  hexShape p = true
  /\ exists v reason,
       slipCheck 9 (Some p) "0812345678" 100 = Some v
       /\ slipStatus v = REVIEW
       /\ slipReason v = Some reason
       /\ Json.readObject reason
          = Some [("crc", Json.Bool true);
                  ("accountMatches", Json.Null);
                  ("amountMatches", Json.Bool true);
                  ("currency", Json.Str "")]
       /\ forall b crc amountOK cur,
            Json.readObject reason
            <> Some [("crc", Json.Bool crc);
                     ("accountMatches", Json.Bool b);
                     ("amountMatches", Json.Bool amountOK);
                     ("currency", Json.Str cur)].
Proof.
  cbv zeta. split; [reflexivity|].
  eexists _, _. split; [vm_compute; reflexivity|].
  split; [reflexivity|]. split; [reflexivity|].
  split; [vm_compute; reflexivity|].
  intros b crc amountOK cur H. vm_compute in H. discriminate H.
Qed.

End Policy.

(** ** The merchant template and the amount *)

Section Matching.

Implicit Types (s p : string) (tlv : gmap string node) (total : float).

(** C2 (as amended) — for a payload of the right shape whose CRC is ok,
    whose amount and currency match and which has neither tag 29 nor tag 26:
    with no expected identifier configured the verdict is VERIFIED_PRELIM;
    with one configured the account match is [null] and the verdict is
    REVIEW. *)
Theorem slipCheck_no_template (fuel : nat) p (expectedPromptpay : string) total :
  hexShape p = true -> (String.length p < fuel)%nat ->
  exists tlv v,
    parseEMV fuel p = Some tlv
    /\ slipCheck fuel (Some p) expectedPromptpay total = Some v
    /\ (ok (verifyCRC p) = true ->
        amountMatches (amount tlv) total = true ->
        currencyOK (currency tlv) = true ->
        tlv !! "29" = None -> tlv !! "26" = None ->
        (expectedPromptpay = "" ->
         v = {| slipStatus := VERIFIED_PRELIM; slipReason := None |})
        /\ (expectedPromptpay <> "" ->
            v = {| slipStatus := REVIEW;
                   slipReason := Some (reasonJSON true None true (currency tlv)) |})).
Proof.
  intros Hshape Hfuel.
  destruct (parseEMV_terminates p fuel (hexShape_noMinus p Hshape) Hfuel) as [tlv Htlv].
  exists tlv, (slipVerdict (verifyCRC p) tlv expectedPromptpay total).
  split; [exact Htlv|]. split; [now rewrite slipCheck_shape, Htlv|].
  intros Hok Hamt Hcur H29 H26. unfold slipVerdict, merchantTemplate.
  rewrite H29, H26, Hok, Hamt, Hcur. cbn [subOf]. unfold accountMatches, truthyString.
  split.
  - intros ->. reflexivity.
  - intros Hne. apply String.eqb_neq in Hne. rewrite Hne. reflexivity.
Qed.

Lemma slipCheck_no_template_witness :
  exists tlv v,
    parseEMV 9 "630403F2" = Some tlv
    /\ slipCheck 9 (Some "630403F2") "0812345678" 100 = Some v
    /\ (ok (verifyCRC "630403F2") = true ->
        amountMatches (amount tlv) 100 = true ->
        currencyOK (currency tlv) = true ->
        tlv !! "29" = None -> tlv !! "26" = None ->
        ("0812345678" = "" ->
         v = {| slipStatus := VERIFIED_PRELIM; slipReason := None |})
        /\ ("0812345678" <> "" ->
            v = {| slipStatus := REVIEW;
                   slipReason := Some (reasonJSON true None true (currency tlv)) |})).
Proof.
  apply (slipCheck_no_template 9 "630403F2" "0812345678" 100); [reflexivity | simpl; lia].
Defined.

(** C2, counterexample — with the identifier "0812345678" configured, the
    payload "630403F2" has the right shape, a correct CRC, no amount, no
    currency and no template, and the verdict is REVIEW. *)
Lemma slipCheck_no_template_counterexample :
  let p := "630403F2" in
  hexShape p = true /\ ok (verifyCRC p) = true
  /\ exists tlv, parseEMV 9 p = Some tlv
       /\ tlv !! "29" = None /\ tlv !! "26" = None
       /\ amountMatches (amount tlv) 100 = true
       /\ currencyOK (currency tlv) = true
       /\ exists v, slipCheck 9 (Some p) "0812345678" 100 = Some v
            /\ slipStatus v = REVIEW /\ slipStatus v <> VERIFIED_PRELIM.
Proof.
  cbv zeta. split; [reflexivity|]. split; [vm_compute; reflexivity|].
  exists (<["63" := Flat "03F2"]> ∅).
  do 5 (split; [vm_compute; reflexivity|]).
  eexists. split; [vm_compute; reflexivity|]. split; [reflexivity | discriminate].
Qed.

(** C7 (as amended) — the amount match is vacuously true when tag 54 is
    absent or empty; when tag 54 carries a non-empty text, that text is
    converted to a binary64 number and matches exactly when the absolute
    difference with the expected amount is below 0.01.  So "100.00" matches
    100.004 and does not match 100.02. *)
Theorem amountMatches_tolerance tlv total :
  (tlv !! "54" = None -> amountMatches (amount tlv) total = true)
  /\ (tlv !! "54" = Some (Flat "") -> amountMatches (amount tlv) total = true)
  /\ (forall v, v <> "" -> tlv !! "54" = Some (Flat v) ->
      amountMatches (amount tlv) total
      = (abs (Num.ofString v - total) <? Num.ofString "0.01")%float)
  /\ (tlv !! "54" = Some (Flat "100.00") ->
      amountMatches (amount tlv) (Num.ofString "100.004") = true
      /\ amountMatches (amount tlv) (Num.ofString "100.02") = false).
Proof.
  unfold amount. split; [|split; [|split]].
  - intros ->. reflexivity.
  - intros ->. reflexivity.
  - intros v Hv ->. cbn [truthy toNumber]. unfold truthyString.
    apply String.eqb_neq in Hv. rewrite Hv. reflexivity.
  - intros ->. split; vm_compute; reflexivity.
Qed.

Lemma amountMatches_tolerance_witness :
  amountMatches (amount (<["54" := Flat "100.00"]> ∅)) (Num.ofString "100.004") = true
  /\ amountMatches (amount (<["54" := Flat "100.00"]> ∅)) (Num.ofString "100.02") = false.
Proof.
  apply (amountMatches_tolerance (<["54" := Flat "100.00"]> ∅) 0).
  vm_compute. reflexivity.
Defined.

(** C7, counterexample — tag 54 present with an empty value, as in the
    payload "5400": the code takes the amount for absent and matches any
    expected amount, where the rule as stated converts the empty text to 0
    and does not match 100. *)
Lemma amountMatches_empty_counterexample :
  parseEMV 2 "5400" = Some (<["54" := Flat ""]> ∅)
  /\ (<["54" := Flat ""]> ∅ : gmap string node) !! "54" = Some (Flat "")
  /\ amountMatches (amount (<["54" := Flat ""]> ∅)) 100 = true
  /\ Spec.amountMatches (<["54" := Flat ""]> ∅) 100 = false.
Proof. do 3 (split; [vm_compute; reflexivity|]). vm_compute. reflexivity. Qed.

End Matching.

(** * Further properties *)

(** ** What every parse stores *)

Section ParserInvariants.

Implicit Types (s t v : string) (out m : gmap string node).

Lemma contains_take_drop s (a b : nat) : Spec.contains s (JS.take a (JS.drop b s)).
Proof.
  exists (JS.take b s), (JS.drop a (JS.drop b s)).
  rewrite str_take_drop. now rewrite str_take_drop.
Qed.

(** A slice is a piece of the text. *)
Lemma contains_slice s (a b : JS.num) : Spec.contains s (JS.slice s a b).
Proof. apply contains_take_drop. Qed.

(** A slice over [n] positions from any start, even a negative one or
    [NaN], has at most [n] characters. *)
Lemma length_slice s (a : JS.num) (n : Z) :
  0 <= n ->
  Z.of_nat (String.length (JS.slice s a (JS.add a (JS.Int n)))) <= n.
Proof.
  intros Hn. destruct a as [|a]; cbn [JS.add]; unfold JS.slice, JS.toIndex, JS.length;
    rewrite str_length_take, str_length_drop.
  - lia.
  - destruct (Z.ltb_spec a 0), (Z.ltb_spec (a + n) 0); lia.
Qed.

Lemma parseField_stored (fuel : nat) s out (i : JS.num) out' (i' : JS.num) :
  (forall t x, out !! t = Some x -> stored s t x) ->
  parseField (parseEMV fuel) s out i = Some (out', i') ->
  forall t x, out' !! t = Some x -> stored s t x.
Proof.
  intros Hout. unfold parseField.
  set (tag := JS.slice s i (JS.add i (JS.Int 2))).
  set (i2 := JS.add i (JS.Int 2)).
  set (lenField := JS.slice s i2 (JS.add i2 (JS.Int 2))).
  set (len := JS.parseInt lenField 10).
  set (i4 := JS.add i2 (JS.Int 2)).
  set (val := JS.slice s i4 (JS.add i4 len)).
  assert (Htag : (String.length tag <= 2)%nat).
  { pose proof (length_slice s i 2 ltac:(lia)) as H. fold tag in H. lia. }
  assert (Hbase : stored s tag (Flat val) \/ isComposite tag = true).
  { destruct (isComposite tag) eqn:Ec; [now right|]. left.
    unfold stored. rewrite Ec. repeat split; try assumption;
      apply contains_slice. }
  cbv zeta. destruct (isComposite tag) eqn:Ec.
  - destruct (parseEMV fuel val) as [sub|] eqn:Es; [|discriminate].
    cbn [mbind option_bind]. intros [= <- <-] t x.
    rewrite insert_insert_eq.
    destruct (decide (t = tag)) as [->|Hne].
    + rewrite lookup_insert_eq. intros [= <-]. unfold stored. rewrite Ec.
      cbn [rawOf]. repeat split; try assumption; try apply contains_slice.
      now exists sub, fuel.
    + rewrite lookup_insert_ne by congruence. apply Hout.
  - intros [= <- <-] t x.
    destruct (decide (t = tag)) as [->|Hne].
    + rewrite lookup_insert_eq. intros [= <-].
      destruct Hbase as [H|H]; [exact H | congruence].
    + rewrite lookup_insert_ne by congruence. apply Hout.
Qed.

Lemma parseLoop_stored (fuel : nat) : forall s out (i : JS.num) m,
  (forall t x, out !! t = Some x -> stored s t x) ->
  parseLoop fuel s out i = Some m ->
  forall t x, m !! t = Some x -> stored s t x.
Proof.
  induction fuel as [|fuel IH]; intros s out i m Hout; [discriminate|].
  rewrite parseLoop_S. destruct (JS.lt i _).
  - destruct (parseField (parseEMV fuel) s out i) as [[out' i']|] eqn:E;
      [|discriminate].
    cbn [mbind option_bind]. apply IH. now apply (parseField_stored fuel s out i out' i').
  - now intros [= <-].
Qed.



(** X4 — for every payload, every key of the object that [parseEMV] returns
    has at most two characters, and every key and every stored text (the
    string, or [raw] for an object) is a contiguous piece of the payload:
    the parser never invents a character. *)
Theorem parseEMV_pieces (fuel : nat) s m t (x : node) :
  parseEMV fuel s = Some m -> m !! t = Some x ->
  (String.length t <= 2)%nat /\ Spec.contains s t /\ Spec.contains s (rawOf x).
Proof.
  intros Hm Hx.
  assert (H : stored s t x).
  { apply (parseLoop_stored fuel s ∅ (JS.Int 0) m); try assumption.
    intros t' x'. now rewrite lookup_empty. }
  destruct H as (H1 & H2 & H3 & _). auto.
Qed.

Lemma parseEMV_pieces_witness :
  (String.length "54" <= 2)%nat /\ Spec.contains "000201540510.00" "54"
  /\ Spec.contains "000201540510.00" (rawOf (Flat "10.00")).
Proof.
  apply (parseEMV_pieces 3 "000201540510.00"
           (<["54" := Flat "10.00"]> (<["00" := Flat "01"]> ∅)) "54");
    vm_compute; reflexivity.
Defined.

End ParserInvariants.

(** ** Parses that return, and parses that do not *)

Section ParserRuns.

Implicit Types (s t v pre rest : string) (out : gmap string node).

(** X1 — on a payload without a minus sign [parseEMV] returns, and needs no
    more rounds of its loop than the payload has characters: the model gives
    the same object with any fuel above the length. *)
Theorem parseEMV_returns_without_minus s :
  allChars noMinus s = true ->
  exists res, forall fuel, (String.length s < fuel)%nat -> parseEMV fuel s = Some res.
Proof.
  intros Hs.
  destruct (parseEMV_terminates s (S (String.length s)) Hs) as [res H]; [lia|].
  exists res. intros fuel Hf.
  apply (parseEMV_mono (S (String.length s))); [lia | exact H].
Qed.

Lemma parseEMV_returns_without_minus_witness :
  exists res, forall fuel,
    (16 < fuel)%nat -> parseEMV fuel "5802TH5406100.00" = Some res.
Proof. apply (parseEMV_returns_without_minus "5802TH5406100.00"). reflexivity. Defined.

(** X2 — a field whose declared length runs past the end of the text is not
    an error: its value is everything that is left, and the loop stops after
    it (for a template tag, once the nested parse of what is left has
    returned). *)
Theorem parseEMV_truncated_field (fuel : nat) s out (i n : Z) :
  0 <= i < JS.length s ->
  JS.parseInt (JS.slice s (JS.Int (i + 2)) (JS.Int (i + 4))) 10 = JS.Int n ->
  Z.max (JS.length s - (i + 4)) 0 < n ->
  let tag := JS.slice s (JS.Int i) (JS.Int (i + 2)) in
  let left := JS.drop (Z.to_nat (i + 4)) s in
  parseLoop (S (S fuel)) s out (JS.Int i) =
  if isComposite tag
  then sub ← parseEMV (S fuel) left; Some (<[tag := Composite left sub]> out)
  else Some (<[tag := Flat left]> out).
Proof. apply parseLoop_truncated. Qed.

Lemma parseEMV_truncated_field_witness :
  parseLoop 2 "5499AB" ∅ (JS.Int 0) = Some (<["54" := Flat "AB"]> ∅).
Proof.
  apply (parseEMV_truncated_field 0 "5499AB" ∅ 0 99);
    [vm_compute; split; [discriminate | reflexivity] | reflexivity | reflexivity].
Defined.

(** A field with the length "-4" leaves the cursor where it was. *)
Lemma parseLoop_minus4 (fuel : nat) : forall pre t rest out,
  String.length t = 2%nat ->
  parseLoop fuel (pre ++ t ++ "-4" ++ rest) out (JS.Int (JS.length pre)) = None.
Proof.
  induction fuel as [|fuel IH]; intros pre t rest out Ht; [reflexivity|].
  rewrite parseLoop_S. unfold JS.lt.
  destruct (Z.ltb_spec (JS.length pre) (JS.length (pre ++ t ++ "-4" ++ rest))) as [_|H].
  2:{ unfold JS.length in H. rewrite !str_length_app in H. lia. }
  rewrite parseField_at. cbv zeta.
  assert (E1 : JS.take 2 (t ++ "-4" ++ rest) = t)
    by (rewrite <- Ht; apply str_take_app_length).
  assert (E2 : JS.drop 2 (t ++ "-4" ++ rest) = "-4" ++ rest)
    by (rewrite <- Ht; apply str_drop_app_length).
  rewrite E1, E2.
  change (JS.take 2 ("-4" ++ rest)) with "-4".
  change (JS.parseInt "-4" 10) with (JS.Int (-4)).
  cbn [JS.add]. replace (JS.length pre + 4 + -4) with (JS.length pre) by lia.
  destruct (isComposite t).
  - destruct (parseEMV fuel _) as [sub|]; [|reflexivity].
    cbn [mbind option_bind]. now apply IH.
  - cbn [mbind option_bind]. now apply IH.
Qed.

(** X5 — whenever the loop of [parseEMV] stands at a field whose two length
    characters are "-4", it never returns: with any two-character tag, any
    text before and after, and any object built so far, the parsed length -4
    takes the cursor back to the start of the same field.  With nothing
    before the field this is [parseEMV] itself on [t ++ "-4" ++ rest]. *)
Theorem parseEMV_negative_length_loops (fuel : nat) pre t rest out :
  String.length t = 2%nat ->
  parseLoop fuel (pre ++ t ++ "-4" ++ rest) out (JS.Int (JS.length pre)) = None
  /\ parseEMV fuel (t ++ "-4" ++ rest) = None.
Proof.
  intros Ht. split; [now apply parseLoop_minus4|].
  now apply (parseLoop_minus4 fuel "" t rest ∅).
Qed.

Lemma parseEMV_negative_length_loops_witness :
  parseLoop 50 ("000201" ++ "54" ++ "-4" ++ "6304ABCD") ∅ (JS.Int (JS.length "000201")) = None
  /\ parseEMV 50 ("54" ++ "-4" ++ "6304ABCD") = None.
Proof. apply (parseEMV_negative_length_loops 50 "000201" "54" "6304ABCD" ∅). reflexivity. Defined.

End ParserRuns.

(** ** The validator beyond its specification *)

Section ValidatorRuns.

Implicit Types (s p a b c u v pre post data payload : string).

(** Two ways of cutting the same text: the shorter head is a head of the
    longer one. *)
Lemma str_app_split a : forall pre u v,
  a ++ u = pre ++ v -> (String.length a <= String.length pre)%nat ->
  exists c, pre = a ++ c /\ u = c ++ v.
Proof.
  induction a as [|x a IH]; intros pre u v H Hl.
  - exists pre. now split.
  - destruct pre as [|y pre]; [simpl in Hl; lia|].
    simpl in H. injection H as -> H.
    destruct (IH pre u v H) as (c & -> & ->); [simpl in Hl; lia|].
    now exists c.
Qed.

(** The marker "6304" does not overlap itself: appended to a text that does
    not contain it, it is the first marker of the result. *)
Lemma marker_first pre post :
  ~ Spec.contains pre "6304" ->
  JS.indexOf (pre ++ "6304" ++ post) "6304" = JS.length pre.
Proof.
  intros Hno.
  destruct (indexOf_found (pre ++ "6304" ++ post) "6304") as (a & b & Hs & Hi & Hmin).
  { now exists pre, post. }
  rewrite Hi. specialize (Hmin pre post eq_refl).
  symmetry in Hs. destruct (str_app_split a pre _ _ Hs Hmin) as (c & -> & Hc).
  destruct c as [|c1 c]; [now rewrite str_app_nil_r|]. exfalso.
  simpl in Hc. injection Hc as <- Hc.
  destruct c as [|c2 c]; [discriminate Hc|]. simpl in Hc. injection Hc as <- Hc.
  destruct c as [|c3 c]; [discriminate Hc|]. simpl in Hc. injection Hc as <- Hc.
  destruct c as [|c4 c]; [discriminate Hc|]. simpl in Hc. injection Hc as <- Hc.
  apply Hno. now exists a, c.
Qed.

Lemma indexOf_absent s p : JS.indexOf s p = -1 -> ~ Spec.contains s p.
Proof.
  intros E Hc. destruct (indexOf_found s p Hc) as (pre & post & _ & Hi & _).
  rewrite E in Hi. unfold JS.length in Hi. lia.
Qed.

(** X6 — [verifyCRC] answers [{ ok: false, expected: null, actual: null }]
    exactly on the payloads that do not contain "6304"; on every other
    payload [expected] and [actual] are strings. *)
Theorem verifyCRC_no_marker payload :
  (verifyCRC payload = {| ok := false; expected := None; actual := None |}
   <-> ~ Spec.contains payload "6304")
  /\ (Spec.contains payload "6304" ->
      exists e x, expected (verifyCRC payload) = Some e
                  /\ actual (verifyCRC payload) = Some x).
Proof.
  unfold verifyCRC, JS.indexOf.
  destruct (indexOfFrom_spec "6304" payload 0) as [[Hr Hno]|(a & b & Hs & Hr & _)];
    [lia | |]; rewrite Hr.
  - change (-1 <? 0) with true. cbv iota. split; [now split | contradiction].
  - destruct (Z.ltb_spec (0 + JS.length a) 0); [unfold JS.length in *; lia|].
    cbv zeta. split.
    + split; [discriminate|]. intros Hno. exfalso. apply Hno. now exists a, b.
    + intros _. eexists _, _. split; reflexivity.
Qed.

Lemma verifyCRC_no_marker_witness :
  verifyCRC "000201010211" = {| ok := false; expected := None; actual := None |}.
Proof.
  apply (verifyCRC_no_marker "000201010211").
  apply indexOf_absent. reflexivity.
Defined.

(** X7 — round trip of the checksum: a text [data] that does not contain
    "6304", followed by "6304" and by the four characters that [crc16ccitt]
    computes for [data ++ "6304"], in any letter case, verifies; whatever
    follows those four characters is not looked at. *)
Theorem verifyCRC_round_trip data c rest :
  ~ Spec.contains data "6304" ->
  JS.toUpperCase c = JS.toUpperCase (crc16ccitt (data ++ "6304")) ->
  verifyCRC (data ++ "6304" ++ c ++ rest)
  = {| ok := true;
       expected := Some (JS.toUpperCase c);
       actual := Some (JS.toUpperCase c) |}.
Proof.
  intros Hno Hc.
  rewrite (verifyCRC_at data (c ++ rest)) by now apply marker_first.
  cbv zeta. rewrite <- crc16ccitt_spec, <- Hc.
  assert (Hl : String.length c = 4%nat).
  { rewrite <- (length_toUpperCase c), Hc, crc16ccitt_spec. apply length_hex4. }
  rewrite <- Hl, str_take_app_length, String.eqb_refl. reflexivity.
Qed.

Lemma verifyCRC_round_trip_witness :
  verifyCRC ("000201" ++ "6304" ++ crc16ccitt ("000201" ++ "6304") ++ "5802TH")
  = {| ok := true;
       expected := Some (JS.toUpperCase (crc16ccitt ("000201" ++ "6304")));
       actual := Some (JS.toUpperCase (crc16ccitt ("000201" ++ "6304"))) |}.
Proof.
  apply (verifyCRC_round_trip "000201" (crc16ccitt ("000201" ++ "6304")) "5802TH");
    [apply indexOf_absent | ]; reflexivity.
Defined.

Lemma upper_hex (x : ascii) : isHexChar (JS.upperChar x) = true -> isHexChar x = true.
Proof.
  destruct x as [[] [] [] [] [] [] [] []]; intros H; vm_compute in H;
    try discriminate H; reflexivity.
Qed.

Lemma allChars_upper_hex s :
  allChars isHexChar (JS.toUpperCase s) = true -> allChars isHexChar s = true.
Proof.
  induction s as [|x s IH]; simpl; [reflexivity|].
  rewrite !andb_true_iff. intros [H1 H2]. split; [now apply upper_hex | now apply IH].
Qed.

Lemma hexDigit_isHex (d : Z) : 0 <= d < 16 -> isHexChar (Spec.hexDigit d) = true.
Proof.
  intros Hd. replace d with (Z.of_nat (Z.to_nat d)) by lia.
  assert (H : (Z.to_nat d < 16)%nat) by lia. revert H. generalize (Z.to_nat d).
  intros n H. do 16 (destruct n as [|n]; [reflexivity|]). lia.
Qed.

Lemma hex4_isHex (r : Z) : allChars isHexChar (Spec.hex4 r) = true.
Proof.
  unfold Spec.hex4. cbn [allChars].
  rewrite !hexDigit_isHex by (apply Z.mod_pos_bound; lia). reflexivity.
Qed.

(** X8 — a payload that verifies has, right after its first "6304", four
    characters that are hex digits: a checksum that is cut short or holds
    another character is never accepted. *)
Theorem verifyCRC_ok_needs_four payload :
  ok (verifyCRC payload) = true ->
  exists pre c post,
    payload = pre ++ "6304" ++ c ++ post
    /\ ~ Spec.contains pre "6304"
    /\ String.length c = 4%nat
    /\ allChars isHexChar c = true.
Proof.
  intros Hok.
  destruct (indexOfFrom_spec "6304" payload 0) as [[Hr _]|(a & b & Hs & Hr & Hmin)];
    [lia | |].
  { unfold verifyCRC, JS.indexOf in Hok. rewrite Hr in Hok. discriminate Hok. }
  subst payload.
  rewrite verifyCRC_at in Hok by (unfold JS.indexOf; rewrite Hr; lia).
  cbn [ok] in Hok. apply String.eqb_eq in Hok.
  exists a, (JS.take 4 b), (JS.drop 4 b). rewrite str_take_drop.
  split; [reflexivity|]. split; [|split].
  - intros (a' & b' & ->).
    specialize (Hmin a' (b' ++ "6304" ++ b)).
    rewrite !str_app_assoc in Hmin. specialize (Hmin eq_refl).
    rewrite !str_length_app in Hmin. simpl in Hmin. lia.
  - rewrite <- (length_toUpperCase (JS.take 4 b)), <- Hok. apply length_hex4.
  - apply allChars_upper_hex. rewrite <- Hok. apply hex4_isHex.
Qed.

Lemma verifyCRC_ok_needs_four_witness :
  exists pre c post,
    "G56304D261" = pre ++ "6304" ++ c ++ post
    /\ ~ Spec.contains pre "6304"
    /\ String.length c = 4%nat
    /\ allChars isHexChar c = true.
Proof. apply (verifyCRC_ok_needs_four "G56304D261"). reflexivity. Defined.

(** *** Letter case *)

Lemma upperChar_facts (c : ascii) :
  JS.isWhiteSpace (JS.upperChar c) = JS.isWhiteSpace c
  /\ Ascii.eqb (JS.upperChar c) "-" = Ascii.eqb c "-"
  /\ Ascii.eqb (JS.upperChar c) "+" = Ascii.eqb c "+"
  /\ JS.digitValue (JS.upperChar c) = JS.digitValue c
  /\ Ascii.eqb "0" (JS.upperChar c) = Ascii.eqb "0" c
  /\ Ascii.eqb "x" (JS.upperChar c) = false
  /\ Ascii.eqb "X" (JS.upperChar c) = Ascii.eqb "x" c || Ascii.eqb "X" c.
Proof. destruct c as [[] [] [] [] [] [] [] []]; repeat split. Qed.

Lemma trimStart_upper s :
  JS.trimStart (JS.toUpperCase s) = JS.toUpperCase (JS.trimStart s).
Proof.
  induction s as [|c s IH]; [reflexivity|]. cbn [JS.toUpperCase JS.trimStart].
  destruct (upperChar_facts c) as (-> & _).
  destruct (JS.isWhiteSpace c); [exact IH | reflexivity].
Qed.

Lemma drop_upper (n : nat) : forall s,
  JS.drop n (JS.toUpperCase s) = JS.toUpperCase (JS.drop n s).
Proof.
  induction n as [|n IH]; intros [|c s]; try reflexivity. apply IH.
Qed.

Lemma digitsValue_upper (R : Z) s : forall acc,
  JS.digitsValue R (JS.toUpperCase s) acc = JS.digitsValue R s acc.
Proof.
  induction s as [|c s IH]; intros acc; [reflexivity|].
  cbn [JS.toUpperCase JS.digitsValue]. unfold JS.radixDigit.
  destruct (upperChar_facts c) as (_ & _ & _ & -> & _).
  destruct (JS.digitValue c) as [d|]; [|reflexivity].
  destruct (d <? R); [apply IH | reflexivity].
Qed.

Lemma prefix0x_upper s :
  JS.startsWith (JS.toUpperCase s) "0x" || JS.startsWith (JS.toUpperCase s) "0X"
  = JS.startsWith s "0x" || JS.startsWith s "0X".
Proof.
  destruct s as [|a [|b s]]; [reflexivity | |].
  - cbn. now rewrite !andb_false_r.
  - cbn [JS.toUpperCase JS.startsWith].
    destruct (upperChar_facts a) as (_ & _ & _ & _ & -> & _).
    destruct (upperChar_facts b) as (_ & _ & _ & _ & _ & -> & ->).
    assert (Hnil : forall u, JS.startsWith u "" = true) by now intros [|].
    rewrite !Hnil.
    destruct (Ascii.eqb "0" a), (Ascii.eqb "x" b), (Ascii.eqb "X" b); reflexivity.
Qed.

(** [parseInt] reads letters in either case alike. *)
Lemma parseInt_upper s (R : Z) : JS.parseInt (JS.toUpperCase s) R = JS.parseInt s R.
Proof.
  unfold JS.parseInt. rewrite trimStart_upper.
  assert (Hbody : forall t,
    (let t' := if (R =? 16)
                  && (JS.startsWith (JS.toUpperCase t) "0x"
                      || JS.startsWith (JS.toUpperCase t) "0X")
               then JS.drop 2 (JS.toUpperCase t) else JS.toUpperCase t in
     JS.digitsValue R t' None)
    = (let t' := if (R =? 16) && (JS.startsWith t "0x" || JS.startsWith t "0X")
                 then JS.drop 2 t else t in
       JS.digitsValue R t' None)).
  { intros t. cbv zeta. rewrite prefix0x_upper.
    destruct (_ && _); [rewrite drop_upper|]; apply digitsValue_upper. }
  cbv zeta in Hbody.
  destruct (JS.trimStart s) as [|c r]; cbn [JS.toUpperCase].
  - reflexivity.
  - destruct (upperChar_facts c) as (_ & -> & -> & _).
    destruct (Ascii.eqb c "-"); [now rewrite Hbody|].
    destruct (Ascii.eqb c "+"); [now rewrite Hbody|].
    change (String (JS.upperChar c) (JS.toUpperCase r))
      with (JS.toUpperCase (String c r)).
    now rewrite Hbody.
Qed.

Lemma hexBytes_upper : forall s, readBytes (JS.toUpperCase s) = readBytes s.
Proof.
  fix IH 1. intros [|a [|b r]]; [reflexivity | |].
  - cbn [JS.toUpperCase readBytes]. unfold readByte.
    change (String (JS.upperChar a) "") with (JS.toUpperCase (String a "")).
    now rewrite parseInt_upper.
  - cbn [JS.toUpperCase readBytes]. unfold readByte.
    change (String (JS.upperChar a) (String (JS.upperChar b) ""))
      with (JS.toUpperCase (String a (String b ""))).
    now rewrite parseInt_upper, IH.
Qed.

Lemma crc16ccitt_upper s : crc16ccitt (JS.toUpperCase s) = crc16ccitt s.
Proof.
  unfold crc16ccitt. now rewrite !crcLoop_crc16, hexBytes_upper.
Qed.

(** X9 — [crc16ccitt] does not see letter case: two texts that differ only
    in the case of their letters get the same checksum, so the checksum
    protects no letter's case. *)
Theorem crc16ccitt_case_blind s t :
  JS.toUpperCase s = JS.toUpperCase t -> crc16ccitt s = crc16ccitt t.
Proof.
  intros H. now rewrite <- (crc16ccitt_upper s), <- (crc16ccitt_upper t), H.
Qed.

Lemma crc16ccitt_case_blind_witness :
  crc16ccitt "00020101021a6304" = crc16ccitt "00020101021A6304".
Proof. apply (crc16ccitt_case_blind "00020101021a6304" "00020101021A6304"). reflexivity. Defined.

End ValidatorRuns.

(** ** What a verified slip guarantees *)

Section PolicyRuns.

Implicit Types (s p t v raw : string) (x : node) (tlv sub : gmap string node)
  (total : float).

Lemma contains_trans s t v : Spec.contains s t -> Spec.contains t v -> Spec.contains s v.
Proof.
  intros (a & b & ->) (c & d & ->). exists (a ++ c), (d ++ b).
  now rewrite !str_app_assoc.
Qed.

Lemma allChars_contains (q : ascii -> bool) s t :
  allChars q s = true -> Spec.contains s t -> allChars q t = true.
Proof.
  intros H (a & b & ->). rewrite !allChars_app in H.
  now apply andb_true_iff in H as [_ [H _]%andb_true_iff].
Qed.

Lemma includes_spec s p : JS.includes s p = true <-> Spec.contains s p.
Proof.
  unfold JS.includes, JS.indexOf.
  destruct (indexOfFrom_spec p s 0) as [[Hr Hno]|(a & b & Hs & Hr & _)]; [lia | |];
    rewrite Hr.
  - split; [discriminate | contradiction].
  - split; [intros _; now exists a, b | intros _].
    apply Z.leb_le. unfold JS.length. lia.
Qed.

(** Every binding of a parse satisfies [stored]. *)
Lemma parseEMV_stored (fuel : nat) s tlv t x :
  parseEMV fuel s = Some tlv -> tlv !! t = Some x -> stored s t x.
Proof.
  intros Hm. apply (parseLoop_stored fuel s ∅ (JS.Int 0) tlv); [|exact Hm].
  intros t' x'. now rewrite lookup_empty.
Qed.

Lemma merchantTemplate_Some tlv sub :
  merchantTemplate tlv = Some sub ->
  exists t raw, isComposite t = true /\ tlv !! t = Some (Composite raw sub).
Proof.
  unfold merchantTemplate, subOf.
  destruct (tlv !! "29") as [[v|raw m]|] eqn:E29.
  - destruct (tlv !! "26") as [[v'|raw m]|] eqn:E26; try discriminate.
    intros [= ->]. now exists "26", raw.
  - intros [= ->]. now exists "29", raw.
  - destruct (tlv !! "26") as [[v'|raw m]|] eqn:E26; try discriminate.
    intros [= ->]. now exists "26", raw.
Qed.

Lemma accountMatches_true (expectedPromptpay : string) (m : option (gmap string node)) :
  expectedPromptpay <> "" ->
  accountMatches expectedPromptpay m = Some true
  <-> exists sub k v, m = Some sub /\ sub !! k = Some (Flat v)
                      /\ Spec.contains v expectedPromptpay.
Proof.
  intros Hne. unfold accountMatches, truthyString.
  apply String.eqb_neq in Hne. rewrite Hne. cbn [negb].
  destruct m as [sub|].
  2:{ split; [discriminate | intros (? & ? & ? & [=] & _)]. }
  split.
  - intros [= H]. apply existsb_exists in H as (x & Hin & Hx).
    apply list_elem_of_In, list_elem_of_fmap in Hin as ([k y] & -> & Hin).
    apply elem_of_map_to_list in Hin. cbn in Hx, Hin.
    destruct y as [v|]; [|discriminate]. cbn in Hx.
    apply includes_spec in Hx. now exists sub, k, v.
  - intros (sub' & k & v & [= <-] & Hk & Hc). f_equal.
    apply existsb_exists. exists (Flat v). split.
    + apply list_elem_of_In, list_elem_of_fmap. exists (k, Flat v).
      split; [reflexivity | now apply elem_of_map_to_list].
    + cbn. now apply includes_spec.
Qed.

(** X10 — the account test, for every configured id and every template:
    without a configured id it passes; with one and no template 29 or 26 it
    is [null]; with one and a template it passes exactly when some string
    value of the template contains the id as a piece. *)
Theorem accountMatches_spec (expectedPromptpay : string)
    (m : option (gmap string node)) :
  (expectedPromptpay = "" -> accountMatches expectedPromptpay m = Some true)
  /\ (expectedPromptpay <> "" ->
      (m = None -> accountMatches expectedPromptpay m = None)
      /\ (forall sub, m = Some sub ->
          exists b, accountMatches expectedPromptpay m = Some b
            /\ (b = true <-> exists k v, sub !! k = Some (Flat v)
                                         /\ Spec.contains v expectedPromptpay))).
Proof.
  split; [now intros ->|]. intros Hne. split.
  - intros ->. unfold accountMatches, truthyString.
    apply String.eqb_neq in Hne. now rewrite Hne.
  - intros sub ->.
    pose proof (accountMatches_true expectedPromptpay (Some sub) Hne) as H.
    destruct (accountMatches expectedPromptpay (Some sub)) as [b|] eqn:E.
    2:{ unfold accountMatches in E. destruct (truthyString _); discriminate. }
    exists b. split; [reflexivity|]. split.
    + intros ->. destruct H as [H _]. destruct (H eq_refl) as (? & k & v & [= <-] & ?).
      now exists k, v.
    + intros (k & v & Hk & Hc). destruct H as [_ H].
      assert (Some b = Some true) as [= ->]; [|reflexivity].
      apply H. now exists sub, k, v.
Qed.

Lemma accountMatches_spec_witness : accountMatches "" None = Some true.
Proof. apply (accountMatches_spec "" None). reflexivity. Defined.

(** X11 — whenever the slip check answers VERIFIED_PRELIM with a configured
    id, that id occurs in the decoded payload as a contiguous piece; since
    the payload passed the hex test, the id consists of hex digits only.  A
    configured id with any other character can never be verified. *)
Theorem slipCheck_verified_holds_id (fuel : nat) (payload : option string)
    (expectedPromptpay : string) total (r : verdict) :
  slipCheck fuel payload expectedPromptpay total = Some r ->
  slipStatus r = VERIFIED_PRELIM ->
  expectedPromptpay <> "" ->
  exists p, payload = Some p /\ Spec.contains p expectedPromptpay
            /\ hexShape expectedPromptpay = true.
Proof.
  intros Hr Hv Hne. destruct payload as [p|]; [|injection Hr as <-; discriminate Hv].
  destruct (hexShape p) eqn:Hs.
  2:{ unfold slipCheck in Hr. rewrite Hs, andb_false_r in Hr.
      injection Hr as <-. discriminate Hv. }
  rewrite slipCheck_shape in Hr by exact Hs.
  destruct (parseEMV fuel p) as [tlv|] eqn:Ht; [|discriminate Hr].
  cbn [mbind option_bind] in Hr. injection Hr as <-.
  unfold slipVerdict in Hv. cbv zeta in Hv.
  destruct (accountMatches expectedPromptpay (merchantTemplate tlv)) as [[|]|] eqn:Ha;
    cbn [from_option] in Hv;
    try (rewrite ?andb_false_r in Hv; cbn in Hv; discriminate Hv).
  apply accountMatches_true in Ha as (sub & k & v & Hm & Hk & Hc); [|exact Hne].
  apply merchantTemplate_Some in Hm as (t & raw & Hcomp & Hm).
  destruct (parseEMV_stored fuel p tlv t _ Ht Hm) as (_ & _ & Hraw & Hsub).
  rewrite Hcomp in Hsub. destruct Hsub as (sub' & f & [= <-] & Hf).
  cbn [rawOf] in Hraw, Hf.
  destruct (parseEMV_stored f raw sub k _ Hf Hk) as (_ & _ & Hval & _).
  cbn [rawOf] in Hval.
  assert (Hp : Spec.contains p expectedPromptpay).
  { eapply contains_trans; [exact Hraw|]. eapply contains_trans; [exact Hval | exact Hc]. }
  exists p. split; [reflexivity|]. split; [exact Hp|].
  unfold hexShape in *. apply andb_true_iff in Hs as [_ Hs].
  apply andb_true_iff. split.
  - apply negb_true_iff, String.eqb_neq, Hne.
  - exact (allChars_contains _ _ _ Hs Hp).
Qed.

Lemma slipCheck_verified_holds_id_witness :
  exists p, Some "2908010412346304BD03" = Some p /\ Spec.contains p "1234"
            /\ hexShape "1234" = true.
Proof.
  apply (slipCheck_verified_holds_id 30 (Some "2908010412346304BD03") "1234" 100
           {| slipStatus := VERIFIED_PRELIM; slipReason := None |});
    [vm_compute; reflexivity | reflexivity | discriminate].
Defined.

(** X12 — when the payload has a field 29, field 26 is never consulted:
    what the parser stored under "29" is an object, its [sub] is the
    merchant template, and if a configured id occurs in no string value of
    that template the verdict is REVIEW, whatever field 26, the CRC, the
    amount and the currency are. *)
Theorem slipVerdict_template_29_first (fuel : nat) p tlv x
    (expectedPromptpay : string) :
  parseEMV fuel p = Some tlv -> tlv !! "29" = Some x ->
  exists raw sub,
    x = Composite raw sub
    /\ merchantTemplate tlv = Some sub
    /\ (expectedPromptpay <> "" ->
        (forall k v, sub !! k = Some (Flat v) -> ~ Spec.contains v expectedPromptpay) ->
        forall crc total,
          slipStatus (slipVerdict crc tlv expectedPromptpay total) = REVIEW).
Proof.
  intros Ht Hx.
  destruct (parseEMV_stored fuel p tlv "29" x Ht Hx) as (_ & _ & _ & Hsub).
  change (isComposite "29") with true in Hsub. destruct Hsub as (sub & f & Hxeq & _).
  exists (rawOf x), sub. split; [exact Hxeq|].
  assert (Hm : merchantTemplate tlv = Some sub).
  { unfold merchantTemplate. rewrite Hx, Hxeq. reflexivity. }
  split; [exact Hm|]. intros Hne Hno crc total.
  unfold slipVerdict. cbv zeta. rewrite Hm.
  destruct (accountMatches expectedPromptpay (Some sub)) as [[|]|] eqn:Ha;
    cbn [from_option]; rewrite ?andb_false_r; cbn; try reflexivity.
  apply accountMatches_true in Ha as (sub' & k & v & [= <-] & Hk & Hc); [|exact Hne].
  now destruct (Hno k v Hk).
Qed.

Lemma slipVerdict_template_29_first_witness :
  exists raw sub,
    Composite "01045678" (<["01" := Flat "5678"]> ∅) = Composite raw sub
    /\ merchantTemplate
         (<["26" := Composite "01041234" (<["01" := Flat "1234"]> ∅)]>
            (<["29" := Composite "01045678" (<["01" := Flat "5678"]> ∅)]> ∅))
       = Some sub
    /\ ("1234" <> "" ->
        (forall k v, sub !! k = Some (Flat v) -> ~ Spec.contains v "1234") ->
        forall crc total,
          slipStatus
            (slipVerdict crc
               (<["26" := Composite "01041234" (<["01" := Flat "1234"]> ∅)]>
                  (<["29" := Composite "01045678" (<["01" := Flat "5678"]> ∅)]> ∅))
               "1234" total) = REVIEW).
Proof.
  apply (slipVerdict_template_29_first 9 "290801045678260801041234"
           (<["26" := Composite "01041234" (<["01" := Flat "1234"]> ∅)]>
              (<["29" := Composite "01045678" (<["01" := Flat "5678"]> ∅)]> ∅)));
    vm_compute; reflexivity.
Defined.

Lemma hex_upper_not_TH (c : ascii) :
  isHexChar c = true -> JS.upperChar c <> "T"%char /\ JS.upperChar c <> "H"%char.
Proof.
  destruct c as [[] [] [] [] [] [] [] []]; intros H; vm_compute in H;
    try discriminate H; split; discriminate.
Qed.

(** X13 — behind the hex test the currency test has two ways to pass only:
    for every payload of hex digits, an accepted currency is absent (or
    empty) or is "764"; the texts "TH" and "THB" that the test also
    accepts cannot come out of such a payload. *)
Theorem currencyOK_behind_hex_test (fuel : nat) p tlv :
  hexShape p = true -> parseEMV fuel p = Some tlv ->
  currencyOK (currency tlv) = true ->
  currency tlv = "" \/ currency tlv = "764".
Proof.
  intros Hs Ht. unfold currency.
  destruct (tlv !! "58") as [x|] eqn:E; [|now left].
  destruct (parseEMV_stored fuel p tlv "58" x Ht E) as (_ & _ & Hc & Hx).
  change (isComposite "58") with false in Hx. rewrite Hx.
  unfold hexShape in Hs. apply andb_true_iff in Hs as [_ Hs].
  pose proof (allChars_contains _ _ _ Hs Hc) as Hv.
  destruct (rawOf x) as [|c1 [|c2 v]]; [now left | |].
  - intros H. unfold currencyOK, truthyString in H. cbn [JS.toUpperCase] in H.
    repeat (apply orb_true_iff in H as [H|H]);
      [discriminate H | apply String.eqb_eq in H; discriminate H ..].
  - simpl in Hv. apply andb_true_iff in Hv as [H1 [H2 _]%andb_true_iff].
    destruct (hex_upper_not_TH c1 H1) as [HT _].
    destruct (hex_upper_not_TH c2 H2) as [_ HH].
    unfold currencyOK, truthyString. cbn [JS.toUpperCase].
    intros H. repeat (apply orb_true_iff in H as [H|H]).
    + discriminate H.
    + apply String.eqb_eq in H. injection H as H _. contradiction.
    + apply String.eqb_eq in H. injection H as H _. contradiction.
    + apply String.eqb_eq in H. now right.
Qed.

Lemma currencyOK_behind_hex_test_witness :
  currency (<["63" := Flat "12E4"]> (<["58" := Flat "764"]> ∅)) = ""
  \/ currency (<["63" := Flat "12E4"]> (<["58" := Flat "764"]> ∅)) = "764".
Proof.
  apply (currencyOK_behind_hex_test 20 "5803764630412E4"); vm_compute; reflexivity.
Defined.

End PolicyRuns.

(** ** The helpers on arbitrary text *)

Section Texts.

Local Open Scope list_scope.

Implicit Types (s e a b w r : ustring) (u d : Z) (l : list ustring) (p q : Z -> bool).

Lemma piece_trans s e a : piece s e -> piece e a -> piece s a.
Proof.
  intros (x & y & ->) (x' & y' & ->). exists (x ++ x'), (y' ++ y).
  now rewrite <- !app_assoc.
Qed.

Lemma forallb_piece q s e : forallb q s = true -> piece s e -> forallb q e = true.
Proof.
  intros H (x & y & ->). rewrite !forallb_app in H.
  now apply andb_true_iff in H as [_ [H _]%andb_true_iff].
Qed.

Lemma trimStartU_suffix s : exists w, s = w ++ trimStartU s.
Proof.
  induction s as [|u s [w IH]]; [now exists []|]. cbn [trimStartU].
  destruct (isSpace u); [|now exists []].
  exists (u :: w). cbn [app]. now rewrite <- IH.
Qed.

Lemma trimStartU_clean s u a : trimStartU s = u :: a -> isSpace u = false.
Proof.
  induction s as [|x s IH]; [discriminate|]. cbn [trimStartU].
  destruct (isSpace x) eqn:E; [exact IH | now intros [= <- _]].
Qed.

Lemma trimStartU_fixed u a : isSpace u = false -> trimStartU (u :: a) = u :: a.
Proof. intros H. cbn [trimStartU]. now rewrite H. Qed.

(** What [trim] returns is a piece of its argument with clean edges. *)
Lemma trimU_spec s : piece s (trimU s) /\ cleanEdges (trimU s).
Proof.
  unfold trimU.
  destruct (trimStartU_suffix s) as [w0 H0].
  destruct (trimStartU_suffix (rev (trimStartU s))) as [w1 H1].
  set (t1 := trimStartU s) in *. set (t2 := trimStartU (rev t1)) in *.
  assert (Ht1 : t1 = rev t2 ++ rev w1).
  { rewrite <- (rev_involutive t1), H1. apply rev_app_distr. }
  split.
  - exists w0, (rev w1). now rewrite <- Ht1.
  - intros a u [H|H].
    + rewrite H in Ht1. cbn [app] in Ht1. exact (trimStartU_clean s u _ Ht1).
    + apply (f_equal (@rev Z)) in H. rewrite rev_involutive, rev_app_distr in H.
      cbn [rev app] in H. exact (trimStartU_clean (rev t1) u _ H).
Qed.

(** A text with clean edges is left as it is. *)
Lemma trimU_clean e : cleanEdges e -> trimU e = e.
Proof.
  intros H. unfold trimU. destruct e as [|u e]; [reflexivity|].
  rewrite trimStartU_fixed by (apply (H e u); now left).
  remember (rev (u :: e)) as r0 eqn:E. symmetry in E.
  destruct r0 as [|x r].
  - apply (f_equal (@rev Z)) in E. rewrite rev_involutive in E. discriminate E.
  - rewrite trimStartU_fixed; [rewrite <- E; apply rev_involutive|].
    apply (H (rev r) x). right.
    rewrite <- (rev_involutive (u :: e)), E. reflexivity.
Qed.

Lemma splitComma_cons s : exists h t, splitComma s = h :: t.
Proof.
  induction s as [|u s (h & t & IH)]; [now exists [], []|]. cbn [splitComma].
  destruct (u =? 44); [now eexists _, _|]. rewrite IH. now eexists _, _.
Qed.

(** The first piece is what precedes the first comma. *)
Lemma splitComma_head s : forall h t,
  splitComma s = h :: t -> exists b, s = h ++ b.
Proof.
  induction s as [|u s IH]; intros h t H.
  - injection H as <- _. now exists [].
  - cbn [splitComma] in H. destruct (u =? 44).
    + injection H as <- _. now exists (u :: s).
    + destruct (splitComma s) as [|h' t'] eqn:E.
      * destruct (splitComma_cons s) as (? & ? & ?). congruence.
      * injection H as <- _. destruct (IH h' t' eq_refl) as [b ->].
        now exists b.
Qed.

(** The pieces hold no comma and are pieces of the text. *)
Lemma splitComma_In s : forall e, In e (splitComma s) ->
  forallb noComma e = true /\ piece s e.
Proof.
  induction s as [|u s IH]; intros e.
  - intros [<-|[]]. split; [reflexivity | now exists [], []].
  - cbn [splitComma]. destruct (u =? 44) eqn:Eu.
    + intros [<-|H].
      * split; [reflexivity | now exists [], (u :: s)].
      * destruct (IH e H) as [H1 (a & b & H2)]. split; [exact H1|].
        exists (u :: a), b. cbn [app]. now rewrite <- H2.
    + destruct (splitComma s) as [|h t] eqn:Es.
      { destruct (splitComma_cons s) as (h & t & ?). congruence. }
      intros [<-|H].
      * destruct (IH h (or_introl eq_refl)) as [H1 _].
        split; [cbn [forallb]; unfold noComma at 1; now rewrite Eu, H1|].
        destruct (splitComma_head s h t Es) as [b ->].
        now exists [], b.
      * destruct (IH e (or_intror H)) as [H1 (a & b & H2)]. split; [exact H1|].
        exists (u :: a), b. cbn [app]. now rewrite <- H2.
Qed.

Lemma splitComma_one e : forallb noComma e = true -> splitComma e = [e].
Proof.
  induction e as [|u e IH]; [reflexivity|]. cbn [forallb splitComma].
  intros [Hu He]%andb_true_iff. unfold noComma in Hu.
  apply negb_true_iff in Hu. now rewrite Hu, IH.
Qed.

Lemma splitComma_app e s :
  forallb noComma e = true -> splitComma (e ++ 44 :: s) = e :: splitComma s.
Proof.
  induction e as [|u e IH]; [reflexivity|]. cbn [forallb].
  intros [Hu He]%andb_true_iff. unfold noComma in Hu. apply negb_true_iff in Hu.
  cbn [app splitComma]. now rewrite Hu, IH.
Qed.

(** Joining with commas and splitting again. *)
Lemma splitComma_joinComma l :
  l <> [] -> (forall e, In e l -> forallb noComma e = true) ->
  splitComma (joinComma l) = l.
Proof.
  induction l as [|x [|y l] IH]; intros Hne Hall; [congruence | |].
  - apply splitComma_one, Hall. now left.
  - cbn [joinComma]. rewrite splitComma_app by (apply Hall; now left).
    f_equal. apply IH; [discriminate|]. intros e He. apply Hall. now right.
Qed.

Lemma filter_all (f : ustring -> bool) l :
  (forall e, In e l -> f e = true) -> List.filter f l = l.
Proof.
  induction l as [|x l IH]; intros H; [reflexivity|]. cbn [List.filter].
  rewrite (H x) by now left. f_equal. apply IH. intros e He. apply H. now right.
Qed.

Lemma map_fixed (f : ustring -> ustring) l :
  (forall e, In e l -> f e = e) -> map f l = l.
Proof.
  induction l as [|x l IH]; intros H; [reflexivity|]. cbn [map].
  rewrite (H x) by now left. f_equal. apply IH. intros e He. apply H. now right.
Qed.

Lemma In_firstn (n : nat) : forall l e, In e (firstn n l) -> In e l.
Proof.
  induction n as [|n IH]; intros [|x l] e; cbn [firstn In]; try tauto.
  intros [H|H]; [now left | right; now apply IH].
Qed.

(** What holds of every slug of the list. *)
Lemma parseSlugsParam_In (q : option ustring) e :
  In e (parseSlugsParam q) ->
  e <> [] /\ forallb noComma e = true /\ cleanEdges e /\ piece (default [] q) e.
Proof.
  unfold parseSlugsParam. intros H%In_firstn.
  apply filter_In in H as [H Hne]. apply in_map_iff in H as (x & <- & Hx).
  apply splitComma_In in Hx as [Hx1 Hx2].
  destruct (trimU_spec x) as [Hpiece Hclean].
  split; [|split; [|split]].
  - intros E. rewrite E in Hne. discriminate Hne.
  - exact (forallb_piece _ _ _ Hx1 Hpiece).
  - exact Hclean.
  - exact (piece_trans _ _ _ Hx2 Hpiece).
Qed.

(** X14 — for every parameter, a text of any characters or [undefined],
    [parseSlugsParam] returns at most 200 slugs, and each of them is
    non-empty, holds no comma, neither starts nor ends with white space
    (the white space of [trim], U+00A0 and the Unicode spaces included), and
    is a contiguous piece of the parameter. *)
Theorem parseSlugsParam_slugs (q : option ustring) :
  (length (parseSlugsParam q) <= 200)%nat
  /\ forall e, In e (parseSlugsParam q) ->
       e <> [] /\ forallb noComma e = true /\ cleanEdges e /\ piece (default [] q) e.
Proof.
  split; [apply firstn_le_length | apply parseSlugsParam_In].
Qed.

Lemma parseSlugsParam_slugs_witness :
  [98; 3585] <> [] /\ forallb noComma [98; 3585] = true /\ cleanEdges [98; 3585]
  /\ piece (default [] (Some [160; 97; 32; 44; 44; 8232; 98; 3585; 65279; 44])) [98; 3585].
Proof.
  apply (parseSlugsParam_slugs (Some [160; 97; 32; 44; 44; 8232; 98; 3585; 65279; 44])).
  vm_compute. tauto.
Defined.

(** A list of at most 200 clean slugs is read back from its joined text. *)
Lemma parseSlugsParam_joinComma l :
  (length l <= 200)%nat ->
  (forall e, In e l -> e <> [] /\ forallb noComma e = true /\ cleanEdges e) ->
  parseSlugsParam (Some (joinComma l)) = l.
Proof.
  intros Hlen Hin. destruct l as [|x l'] eqn:E; [reflexivity|]. rewrite <- E in *.
  unfold parseSlugsParam. cbn [default from_option id].
  rewrite splitComma_joinComma.
  - rewrite map_fixed by (intros e He; apply trimU_clean, (Hin e He)).
    rewrite filter_all.
    + now apply firstn_all2.
    + intros e He. destruct (Hin e He) as [Hne _]. now destruct e.
  - rewrite E. discriminate.
  - intros e He. apply (Hin e He).
Qed.

(** X15 — round trip: the slugs of a parameter, joined with commas and read
    again, are the same slugs. *)
Theorem parseSlugsParam_round_trip (q : option ustring) :
  parseSlugsParam (Some (joinComma (parseSlugsParam q))) = parseSlugsParam q.
Proof.
  apply parseSlugsParam_joinComma.
  - apply firstn_le_length.
  - intros e He. destruct (parseSlugsParam_In q e He) as (H1 & H2 & H3 & _). auto.
Qed.

(** *** Slugs of names *)

Lemma slugChar_facts u :
  slugChar u = true ->
  slugKeep u = true /\ isSpace u = false /\ (isHyphen u = true -> u = 45).
Proof.
  unfold slugChar, slugKeep, isSpace, isHyphen. intros H. lia.
Qed.

Lemma slugKeep_slugChar u : slugKeep u = true -> isSpace u = false -> slugChar u = true.
Proof. unfold slugChar, slugKeep. intros H Hs. rewrite Hs in H. lia. Qed.

Lemma forallb_filter q s : forallb q (List.filter q s) = true.
Proof.
  induction s as [|u s IH]; [reflexivity|]. cbn [List.filter].
  destruct (q u) eqn:E; [cbn [forallb]; now rewrite E | exact IH].
Qed.

Lemma filter_forallb q s : forallb q s = true -> List.filter q s = s.
Proof.
  induction s as [|u s IH]; [reflexivity|]. cbn [forallb List.filter].
  intros [-> H]%andb_true_iff. now rewrite IH.
Qed.

Lemma forallb_impl q q' s :
  (forall u, q u = true -> q' u = true) -> forallb q s = true -> forallb q' s = true.
Proof.
  intros Hq. induction s as [|u s IH]; [reflexivity|]. cbn [forallb].
  intros [Hu Hs]%andb_true_iff. now rewrite (Hq u Hu), IH.
Qed.

Lemma forallb_firstn q (n : nat) : forall s,
  forallb q s = true -> forallb q (firstn n s) = true.
Proof.
  induction n as [|n IH]; intros [|u s]; cbn [firstn forallb]; try reflexivity.
  intros [-> H]%andb_true_iff. now apply IH.
Qed.

(** What is left after the runs of [p] were replaced. *)
Lemma forallb_replaceRuns p q q' s :
  (forall u, q u = true -> p u = false -> q' u = true) -> q' 45 = true ->
  forallb q s = true -> forallb q' (replaceRuns p s) = true.
Proof.
  intros Hq Hh. induction s as [|u s IH]; [reflexivity|].
  cbn [forallb]. intros [Hu Hs]%andb_true_iff. specialize (IH Hs).
  cbn [replaceRuns]. destruct (p u) eqn:Eu.
  - destruct s as [|d s]; [cbn [forallb]; now rewrite Hh|].
    destruct (p d); [exact IH|]. cbn [forallb]. now rewrite Hh, IH.
  - cbn [forallb]. now rewrite (Hq u Hu Eu), IH.
Qed.

Lemma replaceRuns_none p s :
  forallb (fun u => negb (p u)) s = true -> replaceRuns p s = s.
Proof.
  induction s as [|u s IH]; [reflexivity|]. cbn [forallb replaceRuns].
  intros [Hu H]%andb_true_iff. apply negb_true_iff in Hu. now rewrite Hu, IH.
Qed.

Lemma replaceRuns_noRun p s :
  (forall u, p u = true -> u = 45) -> noRun p s = true -> replaceRuns p s = s.
Proof.
  intros Hp. induction s as [|u s IH]; [reflexivity|].
  cbn [noRun replaceRuns]. destruct s as [|d s].
  - intros _. destruct (p u) eqn:Eu; [now rewrite (Hp u Eu) | reflexivity].
  - intros [Hud Hs]%andb_true_iff. apply negb_true_iff in Hud. specialize (IH Hs).
    destruct (p u) eqn:Eu.
    + cbn [andb] in Hud. rewrite Hud, IH. now rewrite (Hp u Eu).
    + now rewrite IH.
Qed.

(** After the replacement no two neighbours are in the class. *)
Lemma noRun_replaceRuns p s : p 45 = true -> noRun p (replaceRuns p s) = true.
Proof.
  intros Hh.
  assert (Hhead : forall d r, p d = false ->
            exists r', replaceRuns p (d :: r) = d :: r').
  { intros d r Hd. cbn [replaceRuns]. rewrite Hd. now eexists. }
  induction s as [|u s IH]; [reflexivity|]. cbn [replaceRuns].
  destruct (p u) eqn:Eu.
  - destruct s as [|d s]; [reflexivity|]. destruct (p d) eqn:Ed; [exact IH|].
    destruct (Hhead d s Ed) as [r' Hr']. rewrite Hr' in IH |- *.
    change (negb (p 45 && p d) && noRun p (d :: r') = true).
    now rewrite Ed, andb_false_r, IH.
  - destruct (replaceRuns p s) as [|x r'] eqn:Er; [reflexivity|].
    change (negb (p u && p x) && noRun p (x :: r') = true).
    now rewrite Eu, IH.
Qed.

Lemma noRun_tail p u s : noRun p (u :: s) = true -> noRun p s = true.
Proof.
  cbn [noRun]. destruct s as [|d s]; [reflexivity|]. now intros [_ H]%andb_true_iff.
Qed.

Lemma noRun_firstn p (n : nat) : forall s, noRun p s = true -> noRun p (firstn n s) = true.
Proof.
  induction n as [|n IH]; intros [|u s] H; try reflexivity.
  pose proof (IH s (noRun_tail p u s H)) as Hs.
  destruct n as [|n]; [destruct s; reflexivity|].
  destruct s as [|d s]; [reflexivity|].
  change (negb (p u && p d) && noRun p (firstn (S n) (d :: s)) = true).
  change (negb (p u && p d) && noRun p (d :: s) = true) in H.
  apply andb_true_iff in H as [H _]. now rewrite H, Hs.
Qed.

Lemma noRun_hyphens s : noRun isHyphen s = true -> ~ piece s [45; 45].
Proof.
  intros H (a & b & ->). induction a as [|u a IH].
  - cbn in H. discriminate H.
  - apply IH. exact (noRun_tail _ _ _ H).
Qed.

(** What the pipeline of [slugify] leaves, whatever [toLowerCase] does. *)
Lemma slugify_spec (toLowerCase : ustring -> ustring) (str : option ustring) :
  (length (slugify toLowerCase str) <= 80)%nat
  /\ forallb slugChar (slugify toLowerCase str) = true
  /\ noRun isHyphen (slugify toLowerCase str) = true.
Proof.
  unfold slugify.
  set (t := List.filter _ _).
  assert (Ht : forallb slugKeep t = true) by apply forallb_filter.
  assert (Hw : forallb slugChar (replaceRuns isSpace t) = true).
  { apply (forallb_replaceRuns _ slugKeep); [apply slugKeep_slugChar | reflexivity | exact Ht]. }
  assert (Hh : forallb slugChar (replaceRuns isHyphen (replaceRuns isSpace t)) = true).
  { apply (forallb_replaceRuns _ slugChar); [auto | reflexivity | exact Hw]. }
  split; [|split].
  - apply firstn_le_length.
  - now apply forallb_firstn.
  - apply noRun_firstn, noRun_replaceRuns. reflexivity.
Qed.

(** A text that is already a slug is left as it is, provided lower-casing
    leaves it as it is. *)
Lemma slugify_fixed (toLowerCase : ustring -> ustring) r :
  toLowerCase r = r ->
  (length r <= 80)%nat -> forallb slugChar r = true ->
  noRun isHyphen r = true -> slugify toLowerCase (Some r) = r.
Proof.
  intros Hlow Hlen Hc Hn. unfold slugify. cbn [default from_option id].
  assert (Hin : forall u, In u r -> slugChar u = true) by now apply forallb_forall.
  assert (Htrim : trimU r = r).
  { apply trimU_clean. intros a u [-> | ->]; apply slugChar_facts, Hin.
    - now left.
    - apply in_or_app. right. now left. }
  rewrite Htrim, Hlow.
  rewrite filter_forallb
    by (apply (forallb_impl slugChar); [intros u Hu; apply slugChar_facts, Hu | exact Hc]).
  rewrite (replaceRuns_none isSpace r).
  2:{ apply (forallb_impl slugChar); [|exact Hc].
      intros u Hu. apply negb_true_iff, slugChar_facts, Hu. }
  rewrite replaceRuns_noRun;
    [| intros u Hu; unfold isHyphen in Hu; lia | exact Hn].
  now apply firstn_all2.
Qed.

(** X16 — for every text of any characters, and whatever [toLowerCase]
    returns, [slugify] returns at most 80 code units, all of them in
    [[a-z0-9ก-๙-]] (lower-case letters, digits, the Thai range U+0E01 to
    U+0E59 and the hyphen; no white space), and never two hyphens in a
    row. *)
Theorem slugify_slug (toLowerCase : ustring -> ustring) (str : option ustring) :
  (length (slugify toLowerCase str) <= 80)%nat
  /\ forallb slugChar (slugify toLowerCase str) = true
  /\ ~ piece (slugify toLowerCase str) [45; 45].
Proof.
  destruct (slugify_spec toLowerCase str) as (H1 & H2 & H3).
  split; [exact H1|]. split; [exact H2 | now apply noRun_hyphens].
Qed.

(** X17 — [slugify] is idempotent, given that [toLowerCase] leaves
    unchanged every text made of lower-case letters, digits, Thai
    characters and hyphens only (none of which has a lower-case form of
    its own): a slug is its own slug. *)
Theorem slugify_idempotent (toLowerCase : ustring -> ustring) (str : option ustring) :
  (forall r, forallb slugChar r = true -> toLowerCase r = r) ->
  slugify toLowerCase (Some (slugify toLowerCase str)) = slugify toLowerCase str.
Proof.
  intros Hlow. destruct (slugify_spec toLowerCase str) as (H1 & H2 & H3).
  apply slugify_fixed; auto.
Qed.

Lemma lowerASCII_slug r : forallb slugChar r = true -> lowerASCII r = r.
Proof.
  unfold lowerASCII. induction r as [|u r IH]; [reflexivity|]. cbn [forallb map].
  intros [Hu Hr]%andb_true_iff. rewrite (IH Hr). f_equal.
  unfold slugChar in Hu. destruct (Z.leb_spec 65 u), (Z.leb_spec u 90); cbn [andb]; lia.
Qed.

Lemma slugify_idempotent_witness :
  slugify lowerASCII (Some (slugify lowerASCII (Some [3626; 3636; 32; 160; 65; 45; 45; 33; 98])))
  = slugify lowerASCII (Some [3626; 3636; 32; 160; 65; 45; 45; 33; 98]).
Proof. apply (slugify_idempotent lowerASCII), lowerASCII_slug. Defined.

End Texts.
